(** * SemanticGAN dashboard metrics: scripts/update_dashboard.py

    A shallow embedding of [main] of [scripts/update_dashboard.py] and the
    properties of its metrics pipeline.

    Modelling conventions.
    - Text is [string]: the bytes of its UTF-8 encoding, so an ASCII
      character is one byte, and the order of two texts is the order of
      Python.  White space and digits are classified for ASCII characters
      only, while [str.strip] and [str.isdigit] also know such characters
      outside ASCII: a statement that depends on the classification
      carries the hypothesis [ascii_text], or is relative to the fields
      the model's own reader gives.
    - The files that exist are read to their end: a run in which reading
      the batch file or the reference file raises (a decoding or I/O
      error; [MemoryError] apart, which the code catches) ends there
      without a report and is not a run of this model.
    - A Python [int] that is a length or a count is a [nat].
    - A percentage is idealised as an exact rational [Qc]: [/] and [*] are
      exact and [round(x, n)] rounds the exact value half-to-even.  The
      code computes in binary64, where a quotient can fall just beside the
      tie its exact value hits (23/160), so a reported number of the code
      can differ from the model's in its last place.  Statements about
      reported percentages are therefore bounds, or hold up to a hundredth
      ([within_cent]); an equality is stated only where binary64 is exact
      too (0, 100, the same computation on both sides).  The integer [0]
      of the [else 0] branches is the rational 0.
    - A score is a [pyfloat]: a finite number, taken as the exact rational
      it denotes, or one of the other values [float(text)] returns
      (negative zero, the infinities, NaN); the sum of finite scores is
      exact here.
    - A [dict] loaded from JSON is a [gmap string json]; a [set] is a
      [gset]; the [Counter] keeps its keys in first-insertion order, as a
      Python dict does, so it is an association list.
    - Exceptions that escape an expression are the [Raise] of a small error
      monad; [print] and [json.dump] are events of a trace. *)

From Stdlib Require Import QArith Qabs Qcanon Qround Lqa Ascii String Sorted.
From stdpp Require Import base numbers list strings gmap sets sorting.

Local Open Scope string_scope.
Local Open Scope list_scope.
Local Open Scope nat_scope.

(** ** Python [str] methods *)

Module Str.

Definition TAB : ascii := "009"%char.

(** [Py_UNICODE_ISSPACE] on ASCII: 9-13 and 28-32. *)
Definition isspace (c : ascii) : bool :=
  let n := nat_of_ascii c in
  ((9 <=? n) && (n <=? 13)) || ((28 <=? n) && (n <=? 32)).

Definition isdigit_char (c : ascii) : bool :=
  let n := nat_of_ascii c in (48 <=? n) && (n <=? 57).

Fixpoint lstrip (s : string) : string :=
  match s with
  | String c s' => if isspace c then lstrip s' else s
  | EmptyString => EmptyString
  end.

(** [rstrip]: a character is kept when it is not white space or when
    something is kept after it. *)
Fixpoint rstrip (s : string) : string :=
  match s with
  | String c s' =>
      match rstrip s' with
      | EmptyString => if isspace c then EmptyString else String c EmptyString
      | r => String c r
      end
  | EmptyString => EmptyString
  end.

(** [s.strip()] *)
Definition strip (s : string) : string := rstrip (lstrip s).

(** [s.split(sep)] for a one-character separator: never empty, an empty
    field between two adjacent separators. *)
Fixpoint split (sep : ascii) (s : string) : list string :=
  match s with
  | EmptyString => [EmptyString]
  | String c s' =>
      if Ascii.eqb c sep then EmptyString :: split sep s'
      else match split sep s' with
           | p :: ps => String c p :: ps
           | [] => [String c EmptyString]
           end
  end.

(** [s.isdigit()]: at least one character and every character a digit. *)
Fixpoint all_digits (s : string) : bool :=
  match s with
  | EmptyString => true
  | String c s' => isdigit_char c && all_digits s'
  end.

Definition isdigit (s : string) : bool :=
  match s with
  | EmptyString => false
  | _ => all_digits s
  end.

Fixpoint startswith (p s : string) : bool :=
  match p, s with
  | EmptyString, _ => true
  | String a p', String b s' => Ascii.eqb a b && startswith p' s'
  | String _ _, EmptyString => false
  end.

(** [p in s] *)
Fixpoint contains (p s : string) : bool :=
  startswith p s ||
  match s with
  | String _ s' => contains p s'
  | EmptyString => false
  end.

(** [s.replace(old, "")] for a non-empty [old]: a left-to-right scan;
    [skip] counts the characters of the current occurrence still to be
    dropped. *)
Fixpoint remove_from (old : string) (skip : nat) (s : string) : string :=
  match s with
  | EmptyString => EmptyString
  | String c s' =>
      match skip with
      | S k => remove_from old k s'
      | O =>
          if startswith old s
          then remove_from old (String.length old - 1) s'
          else String c (remove_from old 0 s')
      end
  end.

Definition remove (old s : string) : string := remove_from old 0 s.

(** The f-string [f"{h}\t{r}\t{t}"]. *)
Definition tab_join (h r t : string) : string :=
  h +:+ String TAB (r +:+ String TAB t).

(** [sep.join(parts)] *)
Fixpoint join (sep : ascii) (parts : list string) : string :=
  match parts with
  | [] => EmptyString
  | [p] => p
  | p :: ps => p +:+ String sep (join sep ps)
  end.

(** Every character of [s] is white space. *)
Fixpoint all_space (s : string) : bool :=
  match s with
  | EmptyString => true
  | String c s' => isspace c && all_space s'
  end.

(** The first and the last character of [s], if any, are not white space. *)
Definition trimmed (s : string) : Prop :=
  lstrip s = s ∧ rstrip s = s.

(** No character of [s] is [sep]. *)
Fixpoint free_of (sep : ascii) (s : string) : bool :=
  match s with
  | EmptyString => true
  | String c s' => negb (Ascii.eqb c sep) && free_of sep s'
  end.

(** A byte that continues a character of more than one byte. *)
Definition continuation (c : ascii) : bool :=
  let n := nat_of_ascii c in (128 <=? n) && (n <? 192).

(** [len(s)]: the characters of [s], that is the bytes that start one. *)
Fixpoint len (s : string) : nat :=
  match s with
  | EmptyString => 0
  | String c s' => if continuation c then len s' else S (len s')
  end.

End Str.

(** ** Numbers *)

Definition Qc_of_nat (n : nat) : Qc := Qc_of_Z (Z.of_nat n).

(** Nearest integer, ties to the even one. *)
Definition round_half_even (q : Q) : Z :=
  let f := Qfloor q in
  match Qcompare (q - inject_Z f) (1 # 2) with
  | Lt => f
  | Gt => (f + 1)%Z
  | Eq => if Z.even f then f else (f + 1)%Z
  end.

(** [round(x, ndigits)] *)
Definition py_round (x : Qc) (ndigits : nat) : Qc :=
  let scale := inject_Z (10 ^ Z.of_nat ndigits) in
  Q2Qc (inject_Z (round_half_even (x * scale)) / scale).

Definition digit_char (d : Z) : ascii := ascii_of_nat (48 + Z.to_nat (d mod 10)).

(** Decimal digits of a natural number, most significant first. *)
Fixpoint digits_fuel (fuel : nat) (n : Z) (acc : string) : string :=
  match fuel with
  | O => acc
  | S k =>
      let acc' := String (digit_char n) acc in
      if (n <? 10)%Z then acc' else digits_fuel k (n / 10)%Z acc'
  end.

Definition digits (n : Z) : string := digits_fuel (S (Z.to_nat (Z.log2 n))) n EmptyString.

Definition four_digits (frac : Z) : string :=
  String (digit_char (frac / 1000))
    (String (digit_char (frac / 100))
       (String (digit_char (frac / 10))
          (String (digit_char frac) EmptyString))).

(** [f"{x:.4f}"]: sign, integer part, a point, four digits. *)
Definition format_4f (x : Qc) : string :=
  let n := round_half_even (Qabs x * inject_Z 10000) in
  (if Qlt_le_dec x 0 then "-" else "") +:+
  digits (n / 10000) +:+ "." +:+ four_digits (n mod 10000).

(** ** Plain decimal literals

    The number a text such as [0.9000], [-12.3457] or [3] denotes: an
    optional minus sign, digits, and optionally a point and digits. *)

Module Decimal.

(** Value of a run of decimal digits after the value [acc]; [None] if
    another character occurs. *)
Fixpoint digits_value (acc : Z) (s : string) : option Z :=
  match s with
  | EmptyString => Some acc
  | String c s' =>
      if Str.isdigit_char c
      then digits_value (10 * acc + Z.of_nat (nat_of_ascii c - 48)) s'
      else None
  end.

Definition unsigned (s : string) : option Qc :=
  match Str.split "."%char s with
  | [i] =>
      if Str.isdigit i then n ← digits_value 0 i; Some (Qc_of_Z n) else None
  | [i; f] =>
      if Str.isdigit i && Str.isdigit f
      then n ← digits_value 0 (i +:+ f);
           Some (Q2Qc (inject_Z n / inject_Z (10 ^ Z.of_nat (String.length f))))
      else None
  | _ => None
  end.

Definition parse (s : string) : option Qc :=
  match s with
  | String "-" s' => q ← unsigned s'; Some (- q)%Qc
  | _ => unsigned s
  end.

End Decimal.

(** ** JSON values and exceptions *)

#[warnings="-register-all"]
Inductive json :=
| JNull
| JBool (b : bool)
| JNum (q : Qc)
| JStr (s : string)
| JArr (l : list json)
| JObj (m : gmap string json).

Inductive exn := ZeroDivisionError | AttributeError | TypeError.

Inductive result (A : Type) :=
| Ok (a : A)
| Raise (e : exn).
Arguments Ok {A} a.
Arguments Raise {A} e.

#[global] Instance result_ret : MRet result := @Ok.
#[global] Instance result_bind : MBind result :=
  λ A B f m, match m with Ok a => f a | Raise e => Raise e end.

(** [d.get(k, dflt)]: only a dict has the method. *)
Definition py_get (d : json) (k : string) (dflt : json) : result json :=
  match d with
  | JObj m => Ok (default dflt (m !! k))
  | _ => Raise AttributeError
  end.

(** [len(v)] *)
Definition py_len (v : json) : result nat :=
  match v with
  | JObj m => Ok (size m)
  | JArr l => Ok (length l)
  | JStr s => Ok (Str.len s)
  | _ => Raise TypeError
  end.

(** [a / b] *)
Definition truediv (a b : Qc) : result Qc :=
  if decide (b = 0%Qc) then Raise ZeroDivisionError else Ok (a / b)%Qc.

(** ** Scores

    A score is what [float(text)] returns: a finite number, read as the
    exact rational it denotes, or negative zero, an infinity or NaN. *)
Inductive pyfloat :=
| Finite (q : Qc)
| NegZero
| PosInf
| NegInf
| NaN.

(** [a + b] *)
Definition float_add (a b : pyfloat) : pyfloat :=
  match a, b with
  | NaN, _ | _, NaN => NaN
  | PosInf, NegInf | NegInf, PosInf => NaN
  | PosInf, _ | _, PosInf => PosInf
  | NegInf, _ | _, NegInf => NegInf
  | NegZero, NegZero => NegZero
  | NegZero, Finite q | Finite q, NegZero => Finite q
  | Finite p, Finite q => Finite (p + q)
  end.

Definition float_over (a : pyfloat) (n : nat) : pyfloat :=
  match a with
  | Finite q => Finite (q / Qc_of_nat n)
  | other => other
  end.

(** [a / n] for an [int] [n] *)
Definition float_truediv (a : pyfloat) (n : nat) : result pyfloat :=
  if decide (n = 0) then Raise ZeroDivisionError else Ok (float_over a n).

(** [round(x, ndigits)] on a score: a negative number that rounds to zero
    gives negative zero, and the special values round to themselves. *)
Definition float_round (x : pyfloat) (ndigits : nat) : pyfloat :=
  match x with
  | Finite q =>
      if Qlt_le_dec q 0
      then if decide (py_round q ndigits = 0%Qc)
           then NegZero else Finite (py_round q ndigits)
      else Finite (py_round q ndigits)
  | other => other
  end.

(** [f"{x:.4f}"] on a score *)
Definition float_format_4f (x : pyfloat) : string :=
  match x with
  | Finite q => format_4f q
  | NegZero => "-0.0000"
  | PosInf => "inf"
  | NegInf => "-inf"
  | NaN => "nan"
  end.

(** ** The report *)

Record training_status := {
  ts_epoch : Z;
  ts_d_loss : Qc;
  ts_g_loss : Qc
}.

Record stats := {
  st_novelty : Qc;
  st_train_overlap : Qc;
  st_uniqueness : Qc;
  st_relation_diversity : Qc;
  st_avg_distance : pyfloat;
  st_schema_validity : Qc;
  st_total_generated : nat;
  st_total_knowledge_base : nat
}.

Record freq_entry := {
  rf_relation : string;
  rf_count : nat;
  rf_percent : Qc
}.

Record hypothesis := {
  hyp_head : json;
  hyp_relation : string;
  hyp_tail : json;
  hyp_score : string;
  hyp_is_novel : bool
}.

Record dashboard := {
  last_updated : string;
  db_training_status : training_status;
  db_stats : stats;
  db_relation_freq : list freq_entry;
  db_hypotheses : list hypothesis
}.

(** ** The files the run reads *)

(** The reference file: its lines, and after how many lines the load runs
    out of memory, if it does. *)
Record real_file := {
  real_lines : list string;
  memory_error : option nat
}.

Record env := {
  (** [MAPPINGS_PATH]: absent; or [open]/[json.load] raises; or the value. *)
  mappings_file : option (option json);
  (** [sorted(SYNTHETIC_DIR.glob("generated*.txt"))]: name and lines. *)
  synthetic_files : list (string * list string);
  (** [REAL_TRIPLES_PATH] *)
  real_triples_file : option real_file;
  (** last row of [LOG_FILE]: Epoch, D_Loss, G_Loss, when it can be read *)
  training_log : option (Z * Qc * Qc);
  (** [datetime.now().strftime(...)] *)
  now : string
}.

(** What [print] shows. *)
Inductive message :=
| MsgUpdating
| MsgMappingsNotFound
| MsgLoadingMappings
| MsgLoadMappingsFailed
| MsgNoGenerated
| MsgAnalyzing (name : string)
| MsgRealFound
| MsgMemoryFull
| MsgRealNotFound
| MsgSaved (validity : Qc).

Inductive event :=
| Print (m : message)
| Dump (path : string) (d : dashboard).

Definition OUTPUT_JSON : string := "dashboard_data.json".

(** A generated triple with its score. *)
Definition scored : Type := string * string * string * pyfloat.

Definition key_of (x : scored) : string * string * string :=
  let '(h, r, t, _) := x in (h, r, t).

Definition joined (x : scored) : string :=
  let '(h, r, t, _) := x in Str.tab_join h r t.

Definition relation_of (x : scored) : string :=
  let '(_, r, _, _) := x in r.

Definition score_of (x : scored) : pyfloat :=
  let '(_, _, _, s) := x in s.

(** [Counter(...)]: one more occurrence of [r]; a new key goes last. *)
Fixpoint counter_add (r : string) (c : list (string * nat)) : list (string * nat) :=
  match c with
  | [] => [(r, 1)]
  | (k, n) :: c' =>
      if String.eqb k r then (k, S n) :: c' else (k, n) :: counter_add r c'
  end.

Definition Counter (l : list string) : list (string * nat) :=
  fold_left (λ c r, counter_add r c) l [].

(** [list.sort(key=lambda x: x["relation"])]: stable, ascending. *)
Fixpoint insert_by_relation (e : freq_entry) (l : list freq_entry) : list freq_entry :=
  match l with
  | [] => [e]
  | x :: l' =>
      if String.ltb (rf_relation x) (rf_relation e)
      then x :: insert_by_relation e l'
      else e :: l
  end.

Definition sort_by_relation (l : list freq_entry) : list freq_entry :=
  foldr insert_by_relation [] l.

Definition relation_tail_rules : gmap string string :=
  list_to_map
    [ ("dblp:hasAuthor", "author"); ("dblp:hasEditor", "author");
      ("dblp:conferenceSeries", "venue/conf"); ("dblp:journalID", "venue/journal");
      ("dblp:listedIn", "venue"); ("dblp:presentedAt", "venue");
      ("dblp:publishedInJournal", "venue"); ("dblp:publishedInYear", "year");
      ("dblp:conferenceYear", "year"); ("dblp:cites", "pub");
      ("dblp:coauthorWith", "author"); ("dblp:affiliation", "org");
      ("rdf:type", "dblp") ].

(** The body of the validity loop for one triple. *)
Definition is_valid (r t : string) : bool :=
  match relation_tail_rules !! r with
  | Some rule_tail =>
      if String.eqb rule_tail "" then true
      else if String.eqb rule_tail "year" && negb (Str.isdigit t) then false
      else if String.eqb rule_tail "author" && negb (Str.contains "author" t) then false
      else true
  | None => true
  end.

(** [(x / total) * 100 if total > 0 else 0] *)
Definition percent_of (x total : nat) : result Qc :=
  if 0 <? total
  then q ← truediv (Qc_of_nat x) (Qc_of_nat total); Ok (q * Qc_of_nat 100)%Qc
  else Ok 0%Qc.

Section Main.

(** [float(text)]: [None] is [ValueError]. *)
Variable float : string → option pyfloat.
(** [hash(text)] of this process. *)
Variable hash : string → Z.

(** *** Mapping loader *)

(** The [try] block: any exception becomes [None]. *)
Definition load_id_to_name (content : option json) : option json :=
  match content with
  | None => None
  | Some data =>
      match py_get data "id2ent" (JObj ∅) with
      | Ok v => Some v
      | Raise _ => None
      end
  end.

(** *** Generated-batch reader *)

Definition parse_line (line : string) : option scored :=
  match Str.split Str.TAB (Str.strip line) with
  | h :: r :: t :: s :: _ =>
      match float s with
      | Some score => Some (h, r, t, score)
      | None => None
      end
  | _ => None
  end.

(** One header line is skipped. *)
Definition read_generated (lines : list string) : list scored :=
  omap parse_line (tail lines).

(** *** Triple store loader *)

Definition add_real_line (acc : gset Z * gset string) (line : string)
  : gset Z * gset string :=
  match Str.split Str.TAB (Str.strip line) with
  | [a; b; c] => ({[ hash (Str.tab_join a b c) ]} ∪ acc.1, {[ b ]} ∪ acc.2)
  | _ => acc
  end.

Definition scan_real (lines : list string) : gset Z * gset string :=
  fold_left add_real_line lines (∅, ∅).

(** [real_triples_set], [all_relations], [novelty_check_active] and what
    was printed. *)
Definition load_real (f : option real_file)
  : gset Z * gset string * bool * list message :=
  match f with
  | None => (∅, ∅, false, [MsgRealNotFound])
  | Some rf =>
      match memory_error rf with
      | None =>
          let acc := scan_real (real_lines rf) in
          (acc.1, acc.2, true, [MsgRealFound])
      | Some k =>
          let acc := scan_real (take k (real_lines rf)) in
          (∅, acc.2, false, [MsgRealFound; MsgMemoryFull])
      end
  end.

(** *** Metrics engine *)

Section Metrics.

Variable synthetic_triples : list scored.
Variable real_triples_set : gset Z.
Variable all_relations : gset string.
Variable novelty_check_active : bool.
Variable id_to_name : json.

Definition total : nat := length synthetic_triples.

Definition not_in_real (x : scored) : bool :=
  bool_decide (hash (joined x) ∉ real_triples_set).

Definition novel_count : nat :=
  if novelty_check_active
  then length (filter (λ x, not_in_real x = true) synthetic_triples)
  else total.

Definition overlap_count : nat := total - novel_count.

Definition novelty_score : result Qc := percent_of novel_count total.
Definition overlap_score : result Qc := percent_of overlap_count total.

Definition unique_triples : nat :=
  size (list_to_set (joined <$> synthetic_triples) : gset string).

Definition uniqueness_score : result Qc := percent_of unique_triples total.

Definition rel_counts : list (string * nat) :=
  Counter (relation_of <$> synthetic_triples).

Definition used_relations : nat := length rel_counts.

Definition total_relations : nat :=
  if decide (all_relations ≠ ∅) then size all_relations else 15.

Definition relation_diversity : result Qc :=
  percent_of used_relations total_relations.

Definition freq_of (rc : string * nat) : result freq_entry :=
  pct ← percent_of rc.2 total;
  Ok {| rf_relation := rc.1; rf_count := rc.2; rf_percent := py_round pct 2 |}.

Definition relation_freq : result (list freq_entry) :=
  l ← mapM freq_of rel_counts; Ok (sort_by_relation l).

(** [sum(score for ...)]: from 0, left to right. *)
Definition sum_scores : pyfloat :=
  fold_left (λ acc x, float_add acc (score_of x)) synthetic_triples (Finite 0).

Definition avg_distance : result pyfloat :=
  if 0 <? total then float_truediv sum_scores total else Ok (Finite 0).

Definition valid_count : nat :=
  length (filter (λ x, is_valid (relation_of x) (key_of x).2 = true) synthetic_triples).

Definition schema_validity : result Qc := percent_of valid_count total.

(** *** Hypothesis sampler *)

Definition is_novel_flag (x : scored) : bool :=
  if novelty_check_active then not_in_real x else true.

Definition decode_triple (x : scored) : result hypothesis :=
  let '(h, r, t, score) := x in
  head_name ← py_get id_to_name h (JStr h);
  tail_name ← py_get id_to_name t (JStr t);
  Ok {| hyp_head := head_name;
        hyp_relation := Str.remove "dblp:" r;
        hyp_tail := tail_name;
        hyp_score := float_format_4f score;
        hyp_is_novel := is_novel_flag x |}.

(** The loop over [enumerate(synthetic_triples)] with its [break]. *)
Fixpoint decode_from (i : nat) (l : list scored) : result (list hypothesis) :=
  match l with
  | [] => Ok []
  | x :: l' =>
      if 200 <=? i then Ok []
      else hyp ← decode_triple x; rest ← decode_from (S i) l'; Ok (hyp :: rest)
  end.

Definition decoded_hypotheses : result (list hypothesis) :=
  decode_from 0 synthetic_triples.

(** *** Report assembler *)

Definition current_status (log : option (Z * Qc * Qc)) : training_status :=
  match log with
  | Some (ep, d, g) =>
      {| ts_epoch := ep; ts_d_loss := py_round d 4; ts_g_loss := py_round g 4 |}
  | None =>
      {| ts_epoch := 0; ts_d_loss := py_round 0 4; ts_g_loss := py_round 0 4 |}
  end.

Definition dashboard_data (stamp : string) (log : option (Z * Qc * Qc))
  : result dashboard :=
  novelty ← novelty_score;
  overlap ← overlap_score;
  uniq ← uniqueness_score;
  diversity ← relation_diversity;
  freq ← relation_freq;
  avg ← avg_distance;
  validity ← schema_validity;
  hyps ← decoded_hypotheses;
  known ← py_len id_to_name;
  Ok {| last_updated := stamp;
        db_training_status := current_status log;
        db_stats :=
          {| st_novelty := py_round novelty 2;
             st_train_overlap := py_round overlap 2;
             st_uniqueness := py_round uniq 2;
             st_relation_diversity := py_round diversity 2;
             st_avg_distance := float_round avg 4;
             st_schema_validity := py_round validity 2;
             st_total_generated := total;
             st_total_knowledge_base := known |};
        db_relation_freq := freq;
        db_hypotheses := hyps |}.

End Metrics.

(** *** The run *)

(** The events of the run, and the exception that ended it, if any. *)
Definition main (e : env) : list event * option exn :=
  let t0 := [Print MsgUpdating] in
  match mappings_file e with
  | None => (t0 ++ [Print MsgMappingsNotFound], None)
  | Some content =>
      let t1 := t0 ++ [Print MsgLoadingMappings] in
      match load_id_to_name content with
      | None => (t1 ++ [Print MsgLoadMappingsFailed], None)
      | Some id_to_name =>
          match last (synthetic_files e) with
          | None => (t1 ++ [Print MsgNoGenerated], None)
          | Some (name, lines) =>
              let t2 := t1 ++ [Print (MsgAnalyzing name)] in
              let synthetic_triples := read_generated lines in
              let '(real_triples_set, all_relations, active, msgs) :=
                load_real (real_triples_file e) in
              let t3 := t2 ++ (Print <$> msgs) in
              match
                d ← dashboard_data synthetic_triples real_triples_set
                      all_relations active id_to_name (now e) (training_log e);
                v ← schema_validity synthetic_triples;
                Ok (d, v)
              with
              | Raise x => (t3, Some x)
              | Ok (d, v) =>
                  (t3 ++ [Dump OUTPUT_JSON d; Print (MsgSaved v)], None)
              end
          end
      end
  end.

(** The reports written by a run, in order. *)
Definition written (run : list event * option exn) : list dashboard :=
  omap (λ ev, match ev with Dump _ d => Some d | Print _ => None end) run.1.

End Main.

(** ** Notions used in the statements *)

(** The value of [percent_of] when nothing is raised. *)
Definition percent_value (x total : nat) : Qc :=
  if 0 <? total then (Qc_of_nat x / Qc_of_nat total * Qc_of_nat 100)%Qc else 0%Qc.

(** Less than a hundredth apart: the same number up to the rounding to
    two places. *)
Definition cent : Qc := Q2Qc (1 # 100).

Definition within_cent (x y : Qc) : Prop := (y - cent < x)%Qc ∧ (x < y + cent)%Qc.

(** Every character of [s] is an ASCII character. *)
Definition ascii_text (s : string) : Prop :=
  Forall (λ c, nat_of_ascii c < 128) (list_ascii_of_string s).

(** Occurrences of [r] in [l]. *)
Definition occurrences (r : string) (l : list string) : nat :=
  length (filter (λ x, x = r) l).

(** The count a [Counter] holds for [r]; 0 for a missing key. *)
Fixpoint counter_get (c : list (string * nat)) (r : string) : nat :=
  match c with
  | [] => 0
  | (k, n) :: c' => if String.eqb k r then n else counter_get c' r
  end.

Definition decimal_digit (c : ascii) : Prop := 48 ≤ nat_of_ascii c ≤ 57.

(** [p] occurs in [s]. *)
Definition substring (p s : string) : Prop := ∃ pre post, s = pre +:+ p +:+ post.

Definition fields_tab_free (x : scored) : Prop :=
  let '(h, r, t, _) := x in
  Str.free_of Str.TAB h = true ∧ Str.free_of Str.TAB r = true
  ∧ Str.free_of Str.TAB t = true.

(** Python's [<] on [str]. *)
Definition str_lt (a b : string) : Prop := String.ltb a b = true.

Definition le_by_relation (a b : freq_entry) : Prop :=
  String.le (rf_relation a) (rf_relation b).

Definition sum_percent (l : list freq_entry) : Qc :=
  foldr (λ f acc, (rf_percent f + acc)%Qc) 0%Qc l.

(** The relation of a line of the reference file that has exactly three
    fields, and the distinct relations of the file. *)
Definition relation_field (line : string) : option string :=
  match Str.split Str.TAB (Str.strip line) with
  | [_; b; _] => Some b
  | _ => None
  end.

Definition corpus_relations (lines : list string) : gset string :=
  list_to_set (omap relation_field lines).

(** Half a unit of the second decimal place: 0.005. *)
Definition half_cent : Qc := Q2Qc (1 # 200).

(** A table entry and a decoded hypothesis, when nothing is raised. *)
Definition freq_value (total : nat) (rc : string * nat) : freq_entry :=
  {| rf_relation := rc.1; rf_count := rc.2;
     rf_percent := py_round (percent_value rc.2 total) 2 |}.

Definition decode_value (m : gmap string json) (flag : scored → bool) (x : scored)
  : hypothesis :=
  let '(h, r, t, score) := x in
  {| hyp_head := default (JStr h) (m !! h);
     hyp_relation := Str.remove "dblp:" r;
     hyp_tail := default (JStr t) (m !! t);
     hyp_score := float_format_4f score;
     hyp_is_novel := flag x |}.

(** The report of a run in which nothing is raised: [known] is
    [len(id_to_name)] and [hyps] the decoded sample. *)
Definition report_value (hash : string → Z) (l : list scored) (s : gset Z)
  (rels : gset string) (a : bool) (known : nat) (hyps : list hypothesis)
  (stamp : string) (log : option (Z * Qc * Qc)) : dashboard :=
  {| last_updated := stamp;
     db_training_status := current_status log;
     db_stats :=
       {| st_novelty := py_round (percent_value (novel_count hash l s a) (total l)) 2;
          st_train_overlap := py_round (percent_value (overlap_count hash l s a) (total l)) 2;
          st_uniqueness := py_round (percent_value (unique_triples l) (total l)) 2;
          st_relation_diversity :=
            py_round (percent_value (used_relations l) (total_relations rels)) 2;
          st_avg_distance :=
            float_round (if 0 <? length l
                         then float_over (sum_scores l) (length l) else Finite 0) 4;
          st_schema_validity := py_round (percent_value (valid_count l) (total l)) 2;
          st_total_generated := total l;
          st_total_knowledge_base := known |};
     db_relation_freq := sort_by_relation (freq_value (total l) <$> rel_counts l);
     db_hypotheses := hyps |}.

(** What a run has loaded. *)
Section Loaded.

Variable float : string → option pyfloat.
Variable hash : string → Z.
Variable e : env.

Definition id_to_name_of : option json :=
  mappings_file e ≫= load_id_to_name.

Definition batch : list scored :=
  match last (synthetic_files e) with
  | Some (_, lines) => read_generated float lines
  | None => []
  end.

Definition real_triples_set_of : gset Z :=
  (load_real hash (real_triples_file e)).1.1.1.

Definition all_relations_of : gset string :=
  (load_real hash (real_triples_file e)).1.1.2.

Definition novelty_check_active_of : bool :=
  (load_real hash (real_triples_file e)).1.2.

(** The reference file is there and loads to its end. *)
Definition corpus_available : Prop :=
  ∃ rf, real_triples_file e = Some rf ∧ memory_error rf = None.

End Loaded.

(** ** Concrete instances for running the model *)

Module Sample.

(** [float] on plain decimal literals such as [0.9], [-12.5] and [3], and
    on the texts nan, inf and -inf; anything else is rejected. *)
Definition decimal_float (s : string) : option pyfloat :=
  if String.eqb s "nan" then Some NaN
  else if String.eqb s "inf" then Some PosInf
  else if String.eqb s "-inf" then Some NegInf
  else
    q ← Decimal.parse s;
    Some (if Str.startswith "-" s && bool_decide (q = 0%Qc) then NegZero else Finite q).

(** A polynomial string hash. *)
Definition poly_hash (s : string) : Z :=
  foldl (λ h c, (31 * h + Z.of_nat (nat_of_ascii c)) mod 2305843009213693951)%Z 7%Z
    (list_ascii_of_string s).

Definition TABS : string := String Str.TAB EmptyString.
Definition NL : string := String "010"%char EmptyString.

(** A tab-separated line of a data file, with its newline. *)
Definition row (fields : list string) : string :=
  match fields with
  | [] => NL
  | f :: fs => foldl (λ acc x, acc +:+ TABS +:+ x) f fs +:+ NL
  end.

Definition header : string := row ["head"; "relation"; "tail"; "score"].

Definition mapping_ab : json :=
  JObj {[ "id2ent" := JObj (<["e1" := JStr "Alice"]> {[ "e2" := JStr "Bob" ]}) ]}.

(** A reference file holding (e1, r1, e2), a mapping for e1 and e2, and
    a batch of two lines: one known triple and one new. *)
Definition env_two : env :=
  {| mappings_file := Some (Some mapping_ab);
     synthetic_files :=
       [("generated_1.txt",
         [header; row ["e1"; "r1"; "e2"; "0.9"]; row ["e1"; "r2"; "e3"; "0.5"]])];
     real_triples_file :=
       Some {| real_lines := [row ["e1"; "r1"; "e2"]]; memory_error := None |};
     training_log := None;
     now := "2026-01-01 00:00 UTC" |}.

Definition with_real (f : option real_file) (e : env) : env :=
  {| mappings_file := mappings_file e;
     synthetic_files := synthetic_files e;
     real_triples_file := f;
     training_log := training_log e;
     now := now e |}.

Definition with_mappings (j : option (option json)) (e : env) : env :=
  {| mappings_file := j;
     synthetic_files := synthetic_files e;
     real_triples_file := real_triples_file e;
     training_log := training_log e;
     now := now e |}.

Definition with_batch (files : list (string * list string)) (e : env) : env :=
  {| mappings_file := mappings_file e;
     synthetic_files := files;
     real_triples_file := real_triples_file e;
     training_log := training_log e;
     now := now e |}.

(** No reference file. *)
Definition env_no_corpus : env := with_real None env_two.

(** A reference file without a line. *)
Definition env_empty_corpus : env :=
  with_real (Some {| real_lines := []; memory_error := None |}) env_two.

(** The load of the reference file runs out of memory after its first
    line. *)
Definition env_memory_error : env :=
  with_real (Some {| real_lines := [row ["e1"; "r1"; "e2"]]; memory_error := Some 1 |})
    env_two.

(** A batch file with its header line only. *)
Definition env_empty_batch : env :=
  with_batch [("generated_1.txt", [header])] env_two.

(** A mapping file holding the JSON array [[]]. *)
Definition env_array_mapping : env := with_mappings (Some (Some (JArr []))) env_two.

(** A mapping file holding the JSON object [{}]. *)
Definition env_no_id2ent : env := with_mappings (Some (Some (JObj ∅))) env_two.

(** A mapping file whose "id2ent" value is the number 5, and a batch file
    with its header line only. *)
Definition env_number_mapping : env :=
  with_mappings (Some (Some (JObj {[ "id2ent" := JNum (Qc_of_nat 5) ]})))
    env_empty_batch.

(** A batch of two lines: a relation that holds "dblp:" in its middle with
    a score that is not a number, and a relation that starts with it
    twice. *)
Definition env_inner_prefix : env :=
  with_batch
    [("generated_1.txt",
      [header; row ["e1"; "xdblp:y"; "e2"; "nan"];
       row ["e1"; "dblp:dblp:z"; "e3"; "0.5"]])]
    env_two.

(** A batch of one line whose relation is a "year" relation and whose tail
    is empty. *)
Definition env_empty_year : env :=
  with_batch
    [("generated_1.txt", [header; row ["p1"; "dblp:publishedInYear"; ""; "0.5"]])]
    env_two.

End Sample.

(** ** Notions used in the further properties *)

(** The three fields of a line of the reference file that has exactly
    three, and its key as the loader hashes it. *)
Definition real_triple (line : string) : option (string * string * string) :=
  match Str.split Str.TAB (Str.strip line) with
  | [a; b; c] => Some (a, b, c)
  | _ => None
  end.

Definition real_key (line : string) : option string :=
  (λ k : string * string * string, Str.tab_join k.1.1 k.1.2 k.2) <$> real_triple line.

Definition corpus_triples (lines : list string) : list (string * string * string) :=
  omap real_triple lines.

Definition corpus_keys (lines : list string) : list string :=
  omap real_key lines.

(** A [hash] without collisions. *)
Definition collision_free (hash : string → Z) : Prop :=
  ∀ a b, hash a = hash b → a = b.

(** A [hash] without collisions among the texts [keys]. *)
Definition collision_free_on (hash : string → Z) (keys : list string) : Prop :=
  ∀ a b, a ∈ keys → b ∈ keys → hash a = hash b → a = b.

Definition valid_triple (x : scored) : Prop :=
  is_valid (relation_of x) (key_of x).2 = true.

(** A hash without collisions: the position of the text in an enumeration
    of all texts. *)
Definition code_hash (s : string) : Z := Z.pos (encode s).

(** The metrics and the sample of a run, as [dashboard_data] gives them. *)
Definition run_data (float : string → option pyfloat) (hash : string → Z)
  (e : env) (idn : json) : result dashboard :=
  dashboard_data hash (batch float e) (real_triples_set_of hash e)
    (all_relations_of hash e) (novelty_check_active_of hash e) idn
    (now e) (training_log e).

(** The statistics that are computed from counts: all but the average
    confidence, which is a sum of scores. *)
Definition count_stats (st : stats) : Qc * Qc * Qc * Qc * Qc * nat * nat :=
  (st_novelty st, st_train_overlap st, st_uniqueness st,
   st_relation_diversity st, st_schema_validity st,
   st_total_generated st, st_total_knowledge_base st).

(** A JSON value without a length: [null], a boolean or a number. *)
Definition no_len (v : json) : Prop :=
  v = JNull ∨ (∃ b, v = JBool b) ∨ (∃ q, v = JNum q).

Definition is_dict (v : json) : Prop := ∃ m, v = JObj m.

(** ** Facts about the string methods *)

Section StrFacts.
Import Str.

Lemma split_nonempty sep s : split sep s ≠ [].
Proof.
  induction s as [|c s IH]; simpl; [done|].
  destruct (Ascii.eqb c sep); [done|]. by destruct (split sep s).
Qed.

Lemma split_free sep s : Forall (λ p, free_of sep p = true) (split sep s).
Proof.
  induction s as [|c s IH]; simpl.
  - by constructor.
  - destruct (Ascii.eqb c sep) eqn:E.
    + by constructor.
    + destruct (split sep s) as [|p ps]; simpl.
      * constructor; [|done]. simpl. by rewrite E.
      * inversion IH; subst. constructor; [|done]. simpl. by rewrite E.
Qed.

(** Splitting loses nothing: joining the fields gives the text back. *)
Lemma join_split sep s : join sep (split sep s) = s.
Proof.
  induction s as [|c s IH]; [done|]. cbn [split].
  pose proof (split_nonempty sep s) as Hne.
  destruct (Ascii.eqb_spec c sep) as [->|Hc].
  - destruct (split sep s) as [|p ps]; [done|]. cbn [join] in *. by rewrite IH.
  - destruct (split sep s) as [|p ps]; [done|].
    destruct ps as [|q ps]; cbn [join] in *; by rewrite <- IH.
Qed.

Lemma lstrip_spec s :
  ∃ pre, s = pre +:+ lstrip s ∧ all_space pre = true ∧ lstrip (lstrip s) = lstrip s.
Proof.
  induction s as [|c s (pre & Hs & Hpre & Hidem)]; [by exists ""|].
  cbn [lstrip]. destruct (isspace c) eqn:Hc.
  - exists (String c pre). split_and!; [|cbn; by rewrite Hc|done].
    change (String c pre +:+ lstrip s) with (String c (pre +:+ lstrip s)).
    by rewrite <- Hs.
  - exists "". split_and!; [done..|]. cbn. by rewrite Hc.
Qed.

Lemma rstrip_spec s :
  ∃ post, s = rstrip s +:+ post ∧ all_space post = true ∧ rstrip (rstrip s) = rstrip s.
Proof.
  induction s as [|c s (post & Hs & Hpost & Hidem)]; [by exists ""|].
  cbn [rstrip]. destruct (rstrip s) as [|d r] eqn:Hr.
  - destruct (isspace c) eqn:Hc.
    + exists (String c post). split_and!; [|cbn; by rewrite Hc|done].
      change ("" +:+ String c post) with (String c ("" +:+ post)). by rewrite <- Hs.
    + exists post. split_and!; [|done|cbn; by rewrite Hc].
      change (String c "" +:+ post) with (String c ("" +:+ post)). by rewrite <- Hs.
  - exists post. split_and!; [|done|].
    + change (String c (String d r) +:+ post) with (String c (String d r +:+ post)).
      by rewrite <- Hs.
    + cbn [rstrip] in *. by rewrite Hidem.
Qed.

Lemma lstrip_length s : String.length (lstrip s) ≤ String.length s.
Proof.
  induction s as [|c s IH]; [done|]. cbn [lstrip].
  destruct (isspace c); cbn [String.length]; lia.
Qed.

Lemma rstrip_lstrip_fixed s : lstrip s = s → lstrip (rstrip s) = rstrip s.
Proof.
  destruct s as [|c s]; [done|]. cbn [lstrip rstrip].
  destruct (isspace c) eqn:Hc.
  - intros E. exfalso. pose proof (lstrip_length s) as Hlen.
    rewrite E in Hlen. cbn in Hlen. lia.
  - intros _. destruct (rstrip s); cbn; by rewrite Hc.
Qed.

(** [strip] removes white space at both ends and nothing else. *)
Lemma strip_spec s :
  ∃ pre post,
    s = pre +:+ strip s +:+ post
    ∧ all_space pre = true ∧ all_space post = true ∧ trimmed (strip s).
Proof.
  unfold strip, trimmed.
  destruct (lstrip_spec s) as (pre & Hs & Hpre & Hidem).
  destruct (rstrip_spec (lstrip s)) as (post & Hl & Hpost & Hidem').
  exists pre, post. split_and!; [|done|done| |done].
  - by rewrite <- Hl.
  - by apply rstrip_lstrip_fixed.
Qed.

Lemma tab_join_inj h r t h' r' t' :
  free_of TAB h = true → free_of TAB r = true →
  free_of TAB h' = true → free_of TAB r' = true →
  tab_join h r t = tab_join h' r' t' → h = h' ∧ r = r' ∧ t = t'.
Proof.
  unfold tab_join.
  assert (∀ a b x y, free_of TAB a = true → free_of TAB b = true →
            a +:+ String TAB x = b +:+ String TAB y → a = b ∧ x = y) as Hcut.
  { induction a as [|c a IH]; intros [|d b] x y Ha Hb E; simpl in *.
    - by inversion E.
    - inversion E; subst. by rewrite Ascii.eqb_refl in Hb.
    - inversion E; subst. by rewrite Ascii.eqb_refl in Ha.
    - inversion E; subst.
      apply andb_true_iff in Ha as [_ Ha]. apply andb_true_iff in Hb as [_ Hb].
      destruct (IH b x y Ha Hb) as [-> ->]; done. }
  intros Hh Hr Hh' Hr' E.
  apply Hcut in E as [-> E]; [|done..].
  apply Hcut in E as [-> ->]; done.
Qed.

Lemma startswith_spec p s : startswith p s = true ↔ ∃ post, s = p +:+ post.
Proof.
  revert s. induction p as [|a p IH]; intros s; simpl.
  - split; [intros _; by exists s|done].
  - destruct s as [|b s].
    + split; [done|]. intros [post E]. done.
    + rewrite andb_true_iff, Ascii.eqb_eq, IH. split.
      * intros [-> [post ->]]. by exists post.
      * intros [post E]. inversion E; subst. split; [done|by exists post].
Qed.

Lemma contains_spec p s : contains p s = true ↔ substring p s.
Proof.
  unfold substring. induction s as [|c s IH].
  - simpl. rewrite orb_false_r, startswith_spec. split.
    + intros [post E]. by exists "", post.
    + intros [pre [post E]]. destruct pre; [by exists post|done].
  - cbn [contains]. rewrite orb_true_iff, startswith_spec, IH. split.
    + intros [[post E]|[pre [post E]]].
      * by exists "", post.
      * exists (String c pre), post. simpl. by rewrite E.
    + intros [pre [post E]]. destruct pre as [|d pre].
      * left. by exists post.
      * right. simpl in E. inversion E; subst. by exists pre, post.
Qed.

Lemma isdigit_char_spec c : isdigit_char c = true ↔ decimal_digit c.
Proof.
  unfold isdigit_char, decimal_digit.
  rewrite andb_true_iff, !Nat.leb_le. done.
Qed.

Lemma all_digits_spec s :
  all_digits s = true ↔ Forall decimal_digit (list_ascii_of_string s).
Proof.
  induction s as [|c s IH]; simpl.
  - split; [by constructor|done].
  - rewrite andb_true_iff, isdigit_char_spec, IH. split.
    + intros [??]. by constructor.
    + by inversion 1.
Qed.

Lemma isdigit_spec s :
  isdigit s = true ↔ s ≠ "" ∧ Forall decimal_digit (list_ascii_of_string s).
Proof.
  destruct s as [|c s].
  - simpl. split; [done|]. by intros [? _].
  - unfold isdigit. rewrite all_digits_spec. split; [done|]. by intros [_ ?].
Qed.

Lemma remove_from_skip old p rest :
  remove_from old (String.length p) (p +:+ rest) = remove_from old 0 rest.
Proof.
  induction p as [|c p IH]; simpl; [|done].
  by destruct rest.
Qed.

Lemma remove_prefix old rest :
  old ≠ "" → remove old (old +:+ rest) = remove old rest.
Proof.
  intros Hne. destruct old as [|c old]; [done|].
  unfold remove. change (String c old +:+ rest) with (String c (old +:+ rest)).
  cbn [remove_from].
  assert (startswith (String c old) (String c (old +:+ rest)) = true) as ->.
  { apply startswith_spec. by exists rest. }
  replace (String.length (String c old) - 1) with (String.length old) by (simpl; lia).
  apply remove_from_skip.
Qed.

Lemma remove_absent old s : contains old s = false → remove old s = s.
Proof.
  unfold remove. induction s as [|c s IH]; [done|].
  cbn [contains remove_from]. intros [H1 H2]%orb_false_iff.
  rewrite H1, IH; done.
Qed.

End StrFacts.

(** ** Facts about percentages and rounding *)

Lemma Qc_of_nat_0 : Qc_of_nat 0 = 0%Qc.
Proof. apply Z2Qc_inj_0. Qed.

Lemma Qc_of_nat_eq0 n : Qc_of_nat n = 0%Qc ↔ n = 0.
Proof.
  unfold Qc_of_nat. rewrite <- Z2Qc_inj_0, Z2Qc_inj_iff. lia.
Qed.

Lemma Qc_of_nat_pos n : 0 < n → (0 < Qc_of_nat n)%Qc.
Proof.
  intros Hn. unfold Qc_of_nat. rewrite <- Z2Qc_inj_0, <- Z2Qc_inj_lt. lia.
Qed.

Lemma Qc_of_nat_le a b : a ≤ b ↔ (Qc_of_nat a ≤ Qc_of_nat b)%Qc.
Proof. unfold Qc_of_nat. rewrite <- Z2Qc_inj_le. lia. Qed.

Lemma Qc_of_nat_add a b : Qc_of_nat (a + b) = (Qc_of_nat a + Qc_of_nat b)%Qc.
Proof. unfold Qc_of_nat. by rewrite Nat2Z.inj_add, Z2Qc_inj_add. Qed.

Lemma Qc_of_nat_inj a b : Qc_of_nat a = Qc_of_nat b → a = b.
Proof. unfold Qc_of_nat. intros H%Z2Qc_inj. lia. Qed.

Lemma percent_of_value x total : percent_of x total = Ok (percent_value x total).
Proof.
  unfold percent_of, percent_value, truediv.
  destruct (0 <? total) eqn:Ht; [|done].
  apply Nat.ltb_lt in Ht.
  destruct (decide _) as [E|_]; [|done].
  apply Qc_of_nat_eq0 in E. lia.
Qed.

Lemma percent_value_full n : 0 < n → percent_value n n = Qc_of_nat 100.
Proof.
  intros Hn. unfold percent_value.
  destruct (Nat.ltb_spec 0 n); [|lia].
  assert (Qc_of_nat n ≠ 0%Qc) by (rewrite Qc_of_nat_eq0; lia).
  by field.
Qed.

Lemma percent_value_none n : percent_value 0 n = 0%Qc.
Proof.
  unfold percent_value. destruct (0 <? n); [|done].
  rewrite Qc_of_nat_0. unfold Qcdiv. ring.
Qed.

Lemma percent_value_le x total : x ≤ total → (percent_value x total ≤ Qc_of_nat 100)%Qc.
Proof.
  intros Hx. unfold percent_value.
  destruct (Nat.ltb_spec 0 total) as [Ht|Ht]; [|done].
  assert (0 < Qc_of_nat total)%Qc as Hpos by by apply Qc_of_nat_pos.
  assert (Qc_of_nat total ≠ 0%Qc) as Hne by (rewrite Qc_of_nat_eq0; lia).
  apply (Qcmult_le_mono_pos_r _ _ (Qc_of_nat total)); [done|].
  replace (Qc_of_nat x / Qc_of_nat total * Qc_of_nat 100 * Qc_of_nat total)%Qc
    with (Qc_of_nat x * Qc_of_nat 100)%Qc by by field.
  rewrite (Qcmult_comm (Qc_of_nat 100)).
  apply Qcmult_le_mono_nonneg_r; [done|]. by apply Qc_of_nat_le.
Qed.

Lemma percent_value_full_inv x total :
  0 < total → percent_value x total = Qc_of_nat 100 → x = total.
Proof.
  intros Ht. unfold percent_value.
  destruct (Nat.ltb_spec 0 total); [|lia].
  assert (Qc_of_nat total ≠ 0%Qc) as Hne by (rewrite Qc_of_nat_eq0; lia).
  intros E. apply Qc_of_nat_inj.
  assert (Qc_of_nat 100 ≠ 0%Qc) as H100 by (rewrite Qc_of_nat_eq0; lia).
  transitivity (Qc_of_nat x / Qc_of_nat total * Qc_of_nat 100
                * (Qc_of_nat total / Qc_of_nat 100))%Qc; [by field|].
  rewrite E. by field.
Qed.

Lemma round_half_even_Z z : round_half_even (inject_Z z) = z.
Proof.
  unfold round_half_even. rewrite Qfloor_Z.
  destruct (Qcompare_spec (inject_Z z - inject_Z z) (1 # 2)) as [E|E|E]; [lra|done|lra].
Qed.

Lemma round_half_even_bounds q :
  (q - (1 # 2) <= inject_Z (round_half_even q) <= q + (1 # 2))%Q.
Proof.
  unfold round_half_even.
  pose proof (Qfloor_le q) as Hlo. pose proof (Qlt_floor q) as Hhi.
  rewrite inject_Z_plus in Hhi. change (inject_Z 1) with 1%Q in Hhi.
  destruct (Qcompare_spec (q - inject_Z (Qfloor q)) (1 # 2)) as [E|E|E].
  - destruct (Z.even _); rewrite ?inject_Z_plus; change (inject_Z 1) with 1%Q; lra.
  - lra.
  - rewrite inject_Z_plus. change (inject_Z 1) with 1%Q. lra.
Qed.

Lemma round_half_even_comp x y : x == y → round_half_even x = round_half_even y.
Proof.
  intros E. unfold round_half_even. rewrite (Qfloor_comp _ _ E).
  assert ((x - inject_Z (Qfloor y) ?= 1 # 2) = (y - inject_Z (Qfloor y) ?= 1 # 2))%Q as ->; [|done].
  by rewrite E.
Qed.

Lemma scale_pos n : (0 < inject_Z (10 ^ Z.of_nat n))%Q.
Proof.
  change 0%Q with (inject_Z 0). rewrite <- Zlt_Qlt. apply Z.pow_pos_nonneg; lia.
Qed.

Lemma py_round_Z z n : py_round (Qc_of_Z z) n = Qc_of_Z z.
Proof.
  unfold py_round. apply Qc_is_canon. simpl.
  rewrite Qred_correct. pose proof (scale_pos n) as Hs.
  rewrite (round_half_even_comp _ (inject_Z (z * 10 ^ Z.of_nat n))).
  - rewrite round_half_even_Z, inject_Z_mult. field. lra.
  - rewrite inject_Z_mult. reflexivity.
Qed.

Lemma py_round_0 n : py_round 0%Qc n = 0%Qc.
Proof. rewrite <- Z2Qc_inj_0. apply py_round_Z. Qed.

Lemma py_round_nat k n : py_round (Qc_of_nat k) n = Qc_of_nat k.
Proof. apply py_round_Z. Qed.

Lemma py_round_this x n :
  (py_round x n == inject_Z (round_half_even (x * inject_Z (10 ^ Z.of_nat n)))
                   / inject_Z (10 ^ Z.of_nat n))%Q.
Proof. unfold py_round. simpl. apply Qred_correct. Qed.

(** The rounded value is within half a unit of the last kept digit. *)
Lemma py_round_error (x : Qc) n :
  (Qabs (py_round x n - x) <= (1 # 2) / inject_Z (10 ^ Z.of_nat n))%Q.
Proof.
  rewrite py_round_this. pose proof (scale_pos n) as Hs.
  set (s := inject_Z (10 ^ Z.of_nat n)) in *.
  pose proof (round_half_even_bounds (x * s)) as [Hlo Hhi].
  set (r := inject_Z (round_half_even (x * s))) in *.
  set (xs := (x * s)%Q) in *.
  assert (r / s - x == (r - xs) / s)%Q as -> by (unfold xs; field; lra).
  apply Qabs_Qle_condition. split.
  - apply (Qmult_le_r _ _ s Hs).
    assert ((r - xs) / s * s == r - xs)%Q as -> by (field; lra).
    assert (- ((1 # 2) / s) * s == - (1 # 2))%Q as -> by (field; lra).
    lra.
  - apply (Qmult_le_r _ _ s Hs).
    assert ((r - xs) / s * s == r - xs)%Q as -> by (field; lra).
    assert ((1 # 2) / s * s == (1 # 2))%Q as -> by (field; lra).
    lra.
Qed.

(** ** Facts about the [.4f] format *)

Lemma digit_char_isdigit d : Str.isdigit_char (digit_char d) = true.
Proof.
  unfold Str.isdigit_char, digit_char.
  pose proof (Z.mod_pos_bound d 10 eq_refl).
  rewrite nat_ascii_embedding by lia.
  apply andb_true_iff. split; apply Nat.leb_le; lia.
Qed.

Lemma digits_fuel_all_digits k n acc :
  Str.all_digits acc = true → Str.all_digits (digits_fuel k n acc) = true.
Proof.
  revert n acc. induction k as [|k IH]; intros n acc Hacc; cbn [digits_fuel]; [done|].
  assert (Str.all_digits (String (digit_char n) acc) = true) as Hacc'.
  { cbn. by rewrite digit_char_isdigit. }
  destruct (n <? 10)%Z; [done|]. by apply IH.
Qed.

Lemma digits_fuel_nonempty k n acc :
  acc ≠ "" → digits_fuel k n acc ≠ "".
Proof.
  revert n acc. induction k as [|k IH]; intros n acc Hacc; cbn [digits_fuel]; [done|].
  destruct (n <? 10)%Z; [done|]. by apply IH.
Qed.

Lemma digits_isdigit n : Str.isdigit (digits n) = true.
Proof.
  unfold digits. cbn [digits_fuel].
  set (acc := String (digit_char n) "").
  assert (Str.all_digits acc = true) as Hacc by (cbn; by rewrite digit_char_isdigit).
  assert (∀ s, s ≠ "" → Str.all_digits s = true → Str.isdigit s = true) as Hs
    by (by intros [|??]).
  destruct (n <? 10)%Z; apply Hs; try done.
  - by apply digits_fuel_nonempty.
  - by apply digits_fuel_all_digits.
Qed.

(** An optional sign, at least one digit, a point, four digits. *)
Lemma format_4f_shape x :
  ∃ sign ip fp,
    format_4f x = sign +:+ ip +:+ "." +:+ fp
    ∧ (sign = "" ∨ sign = "-")
    ∧ Str.isdigit ip = true
    ∧ String.length fp = 4
    ∧ Str.all_digits fp = true.
Proof.
  unfold format_4f. eexists _, _, _. split; [reflexivity|]. split_and!.
  - destruct (Qlt_le_dec x 0); auto.
  - apply digits_isdigit.
  - reflexivity.
  - cbn. by rewrite !digit_char_isdigit.
Qed.

Lemma append_assoc (a b c : string) : (a +:+ b) +:+ c = a +:+ (b +:+ c).
Proof.
  induction a as [|x a IH]; [done|].
  change ((String x a +:+ b) +:+ c) with (String x ((a +:+ b) +:+ c)).
  by rewrite IH.
Qed.

Lemma append_nil_r (a : string) : a +:+ "" = a.
Proof.
  induction a as [|x a IH]; [done|].
  change (String x a +:+ "") with (String x (a +:+ "")). by rewrite IH.
Qed.

Lemma length_append (a b : string) :
  String.length (a +:+ b) = String.length a + String.length b.
Proof.
  induction a as [|x a IH]; [done|].
  change (String x a +:+ b) with (String x (a +:+ b)). cbn [String.length].
  by rewrite IH.
Qed.

Lemma append_cons (c : ascii) (a b : string) : String c a +:+ b = String c (a +:+ b).
Proof. reflexivity. Qed.

(** An occurrence of "dblp:" cannot start before another one and run
    into it: its colon would fall on a letter. *)
Lemma startswith_dblp_app (x rest : string) :
  x ≠ "" →
  Str.startswith "dblp:" (x +:+ "dblp:" +:+ rest) = true →
  Str.startswith "dblp:" x = true.
Proof.
  intros Hx.
  destruct x as [|c1 [|c2 [|c3 [|c4 [|c5 x]]]]]; [done|..];
    rewrite ?append_cons; cbn; rewrite ?andb_false_r; done.
Qed.

(** [replace] removes the first occurrence, wherever it is, and goes on
    behind it. *)
Lemma remove_dblp_first (a b : string) :
  Str.contains "dblp:" a = false →
  Str.remove "dblp:" (a +:+ "dblp:" +:+ b) = a +:+ Str.remove "dblp:" b.
Proof.
  induction a as [|c a IH]; intros Ha.
  - change ("" +:+ "dblp:" +:+ b) with ("dblp:" +:+ b).
    change ("" +:+ Str.remove "dblp:" b) with (Str.remove "dblp:" b).
    by apply remove_prefix.
  - cbn [Str.contains] in Ha. apply orb_false_iff in Ha as [Hs Ha].
    assert (Str.startswith "dblp:" (String c a +:+ "dblp:" +:+ b) = false) as E.
    { apply not_true_is_false. intros E.
      apply startswith_dblp_app in E; [congruence|discriminate]. }
    change (String c a +:+ "dblp:" +:+ b) with (String c (a +:+ "dblp:" +:+ b)) in *.
    change (String c a +:+ Str.remove "dblp:" b)
      with (String c (a +:+ Str.remove "dblp:" b)).
    unfold Str.remove in *. cbn [Str.remove_from]. rewrite E. f_equal. by apply IH.
Qed.

Lemma digit_char_value d :
  Z.of_nat (nat_of_ascii (digit_char d) - 48) = (d mod 10)%Z.
Proof.
  unfold digit_char. pose proof (Z.mod_pos_bound d 10 eq_refl).
  rewrite nat_ascii_embedding by lia. lia.
Qed.

Lemma digits_value_app a p q :
  Decimal.digits_value a (p +:+ q)
  = Decimal.digits_value a p ≫= λ v, Decimal.digits_value v q.
Proof.
  revert a. induction p as [|c p IH]; intros a; [done|].
  change (String c p +:+ q) with (String c (p +:+ q)). cbn [Decimal.digits_value].
  destruct (Str.isdigit_char c); [apply IH|done].
Qed.

Lemma digits_fuel_value k n acc :
  (0 ≤ n < 2 ^ Z.of_nat k)%Z →
  ∃ p, digits_fuel k n acc = p +:+ acc
       ∧ ∀ a, Decimal.digits_value a p
              = Some (a * 10 ^ Z.of_nat (String.length p) + n)%Z.
Proof.
  revert n acc. induction k as [|k IH]; intros n acc Hn.
  - exists "". split; [done|]. intros a. cbn. f_equal. cbn in Hn. lia.
  - cbn [digits_fuel]. destruct (Z.ltb_spec n 10) as [Hlt|Hge].
    + exists (String (digit_char n) ""). split; [done|]. intros a.
      cbn [Decimal.digits_value]. rewrite digit_char_isdigit, digit_char_value.
      cbn [String.length]. rewrite Z.mod_small by lia. f_equal. lia.
    + destruct (IH (n / 10)%Z (String (digit_char n) acc)) as (p & Hp & Hv).
      { rewrite Nat2Z.inj_succ, Z.pow_succ_r in Hn by lia.
        split; [apply Z.div_pos; lia|]. apply Z.div_lt_upper_bound; lia. }
      exists (p +:+ String (digit_char n) ""). split.
      * rewrite Hp. by rewrite append_assoc.
      * intros a. rewrite digits_value_app, Hv. cbn [mbind option_bind].
        cbn [Decimal.digits_value]. rewrite digit_char_isdigit, digit_char_value.
        f_equal. rewrite length_append. cbn [String.length].
        rewrite Nat2Z.inj_add, Z.pow_add_r by lia.
        pose proof (Z.div_mod n 10). lia.
Qed.

(** The digits of [n] denote [n]. *)
Lemma digits_value_digits n a :
  (0 ≤ n)%Z →
  Decimal.digits_value a (digits n)
  = Some (a * 10 ^ Z.of_nat (String.length (digits n)) + n)%Z.
Proof.
  intros Hn. unfold digits.
  destruct (digits_fuel_value (S (Z.to_nat (Z.log2 n))) n "") as (p & Hp & Hv).
  { split; [done|]. rewrite Nat2Z.inj_succ, Z2Nat.id by apply Z.log2_nonneg.
    destruct (decide (n = 0%Z)) as [->|]; [done|]. apply Z.log2_spec. lia. }
  rewrite Hp, append_nil_r. apply Hv.
Qed.

Lemma Qfloor_unique q z :
  (inject_Z z <= q)%Q → (q < inject_Z (z + 1))%Q → Qfloor q = z.
Proof.
  intros Hlo Hhi.
  pose proof (Qfloor_le q) as H1. pose proof (Qlt_floor q) as H2.
  assert (inject_Z (Qfloor q) < inject_Z (z + 1))%Q as H3 by lra.
  assert (inject_Z z < inject_Z (Qfloor q + 1))%Q as H4 by lra.
  rewrite <- Zlt_Qlt in H3, H4. lia.
Qed.

Lemma round_half_even_opp q : round_half_even (- q) = (- round_half_even q)%Z.
Proof.
  pose proof (Qfloor_le q) as Hlo. pose proof (Qlt_floor q) as Hhi.
  rewrite inject_Z_plus in Hhi. change (inject_Z 1) with 1%Q in Hhi.
  destruct (Qeq_dec q (inject_Z (Qfloor q))) as [E|E].
  - rewrite (round_half_even_comp q _ E), round_half_even_Z.
    rewrite (round_half_even_comp (- q) (inject_Z (- Qfloor q))).
    + apply round_half_even_Z.
    + rewrite inject_Z_opp. by rewrite <- E.
  - assert (Qfloor (- q) = - (Qfloor q + 1))%Z as Hf.
    { apply Qfloor_unique.
      - rewrite inject_Z_opp, inject_Z_plus. change (inject_Z 1) with 1%Q. lra.
      - replace (- (Qfloor q + 1) + 1)%Z with (- Qfloor q)%Z by lia.
        rewrite inject_Z_opp.
        assert (inject_Z (Qfloor q) < q)%Q; [|lra].
        apply Qle_lteq in Hlo as [?|?]; [done|]. destruct E. by symmetry. }
    unfold round_half_even. rewrite Hf.
    rewrite inject_Z_opp, inject_Z_plus. change (inject_Z 1) with 1%Q.
    set (f := Qfloor q) in *.
    destruct (Qcompare_spec (q - inject_Z f) (1 # 2)) as [H1|H1|H1];
      destruct (Qcompare_spec (- q - - (inject_Z f + 1)) (1 # 2)) as [H2|H2|H2];
      try lra; try lia.
    replace (- (f + 1))%Z with (Z.pred (- f)) by lia.
    rewrite Z.even_pred, Z.odd_opp, <- Z.negb_even.
    destruct (Z.even f); cbn; lia.
Qed.

Lemma round_half_even_nonneg q : (0 <= q)%Q → (0 ≤ round_half_even q)%Z.
Proof.
  intros Hq. assert (0 ≤ Qfloor q)%Z as Hf.
  { change 0%Z with (Qfloor 0). by apply Qfloor_resp_le. }
  unfold round_half_even. destruct (Qcompare _ _); [destruct (Z.even _)|..]; lia.
Qed.

Lemma isdigit_char_not_point c : Str.isdigit_char c = true → Ascii.eqb c "." = false.
Proof.
  intros Hc. destruct (Ascii.eqb_spec c ".") as [->|]; [|done]. done.
Qed.

Lemma isdigit_char_not_minus c : Str.isdigit_char c = true → c ≠ "-"%char.
Proof. by intros Hc ->. Qed.

Lemma all_digits_free_of_point s :
  Str.all_digits s = true → Str.free_of "." s = true.
Proof.
  induction s as [|c s IH]; [done|]. cbn.
  intros [Hc Hs]%andb_true_iff. by rewrite (isdigit_char_not_point c Hc), IH.
Qed.

Lemma split_free_app sep a b :
  Str.free_of sep a = true →
  Str.split sep (a +:+ String sep b) = a :: Str.split sep b.
Proof.
  induction a as [|c a IH]; intros Ha.
  - change ("" +:+ String sep b) with (String sep b). cbn [Str.split].
    by rewrite Ascii.eqb_refl.
  - change (String c a +:+ String sep b) with (String c (a +:+ String sep b)).
    cbn in Ha. apply andb_true_iff in Ha as [Hc Ha]. apply negb_true_iff in Hc.
    cbn [Str.split]. by rewrite Hc, IH.
Qed.

Lemma split_free_single sep b : Str.free_of sep b = true → Str.split sep b = [b].
Proof.
  induction b as [|c b IH]; [done|]. cbn.
  intros [Hc Hb]%andb_true_iff. apply negb_true_iff in Hc. by rewrite Hc, IH.
Qed.

Lemma four_digits_value a frac :
  (0 ≤ frac < 10000)%Z →
  Decimal.digits_value a (four_digits frac) = Some (a * 10000 + frac)%Z.
Proof.
  intros Hf. unfold four_digits. cbn [Decimal.digits_value].
  rewrite !digit_char_isdigit, !digit_char_value. f_equal.
  Z.to_euclidean_division_equations. lia.
Qed.

Lemma unsigned_of_format n :
  (0 ≤ n)%Z →
  Decimal.unsigned (digits (n / 10000) +:+ "." +:+ four_digits (n mod 10000))
  = Some (Q2Qc (inject_Z n / inject_Z 10000)).
Proof.
  intros Hn. unfold Decimal.unsigned.
  pose proof (digits_isdigit (n / 10000)) as Hi.
  assert (Str.all_digits (digits (n / 10000)) = true) as Hall
    by (destruct (digits (n / 10000)); done).
  assert (Str.all_digits (four_digits (n mod 10000)) = true) as Hfall
    by (cbn; by rewrite !digit_char_isdigit).
  change ("." +:+ four_digits (n mod 10000))
    with (String "."%char (four_digits (n mod 10000))).
  rewrite split_free_app by by apply all_digits_free_of_point.
  rewrite split_free_single by by apply all_digits_free_of_point.
  rewrite Hi. change (Str.isdigit (four_digits (n mod 10000))) with
    (Str.all_digits (four_digits (n mod 10000))). rewrite Hfall. cbn [andb].
  rewrite digits_value_app, digits_value_digits by (apply Z.div_pos; lia).
  cbn [mbind option_bind]. rewrite four_digits_value by (apply Z.mod_pos_bound; lia).
  cbn [mbind option_bind].
  replace ((0 * 10 ^ Z.of_nat (String.length (digits (n / 10000))) + n / 10000)
           * 10000 + n mod 10000)%Z with n
    by (pose proof (Z.div_mod n 10000); lia).
  done.
Qed.

Lemma parse_unsigned s :
  (∀ s', s ≠ String "-" s') → Decimal.parse s = Decimal.unsigned s.
Proof.
  intros Hs. destruct s as [|c s]; [done|].
  destruct (Ascii.eqb_spec c "-") as [->|Hc]; [by destruct (Hs s)|].
  destruct c as [[] [] [] [] [] [] [] []]; done.
Qed.

Lemma digits_not_minus n rest s' : digits n +:+ rest ≠ String "-" s'.
Proof.
  pose proof (digits_isdigit n) as Hd.
  destruct (digits n) as [|c d]; [done|].
  change (String c d +:+ rest) with (String c (d +:+ rest)).
  intros [= -> _]. done.
Qed.

(** The text of [.4f] denotes the number rounded to four places. *)
Lemma parse_format_4f x : Decimal.parse (format_4f x) = Some (py_round x 4).
Proof.
  unfold format_4f.
  set (n := round_half_even (Qabs x * inject_Z 10000)).
  assert (0 ≤ n)%Z as Hn.
  { apply round_half_even_nonneg. apply Qmult_le_0_compat; [apply Qabs_nonneg|done]. }
  destruct (Qlt_le_dec x 0) as [Hx|Hx].
  - change ("-" +:+ ?s) with (String "-"%char s). cbn [Decimal.parse].
    rewrite unsigned_of_format by done. cbn [mbind option_bind]. f_equal.
    apply Qc_is_canon. rewrite py_round_this.
    change (inject_Z (10 ^ Z.of_nat 4)) with (inject_Z 10000).
    assert (round_half_even (x * inject_Z 10000) = - n)%Z as ->.
    { unfold n. rewrite <- Z.opp_involutive at 1. f_equal.
      rewrite <- round_half_even_opp. apply round_half_even_comp.
      rewrite Qabs_neg by lra. ring. }
    cbn [this Qcopp Q2Qc]. rewrite !Qred_correct, inject_Z_opp. field.
  - change ("" +:+ ?s) with s.
    rewrite parse_unsigned by apply digits_not_minus.
    rewrite unsigned_of_format by done. f_equal.
    apply Qc_is_canon. rewrite py_round_this.
    change (inject_Z (10 ^ Z.of_nat 4)) with (inject_Z 10000).
    assert (round_half_even (x * inject_Z 10000) = n) as ->.
    { unfold n. apply round_half_even_comp. by rewrite Qabs_pos. }
    cbn [this Q2Qc]. by rewrite Qred_correct.
Qed.

(** ** Facts about the batch reader and the uniqueness key *)

Section ReaderFacts.
Import Str.
Variable float : string → option pyfloat.

Lemma parse_line_tab_free line x :
  parse_line float line = Some x → fields_tab_free x.
Proof.
  unfold parse_line. pose proof (split_free TAB (strip line)) as Hf.
  destruct (split TAB (strip line)) as [|h [|r [|t [|s rest]]]]; try done.
  destruct (float s); [|done]. intros [= <-].
  inversion Hf as [|? ? Hh Hf1]; subst. inversion Hf1 as [|? ? Hr Hf2]; subst.
  inversion Hf2 as [|? ? Ht _]; subst. done.
Qed.

Lemma read_generated_tab_free lines :
  Forall fields_tab_free (read_generated float lines).
Proof.
  unfold read_generated. apply Forall_forall. intros x Hx.
  apply list_elem_of_omap in Hx as (line & _ & Hp).
  by eapply parse_line_tab_free.
Qed.
End ReaderFacts.

Section KeyFacts.
Import Str.

Lemma joined_inj_tab_free x y :
  fields_tab_free x → fields_tab_free y → joined x = joined y → key_of x = key_of y.
Proof.
  destruct x as [[[h r] t] s], y as [[[h' r'] t'] s']. simpl.
  intros (Hh & Hr & _) (Hh' & Hr' & _) E.
  apply tab_join_inj in E as (-> & -> & ->); done.
Qed.

Lemma joined_key x y : key_of x = key_of y → joined x = joined y.
Proof.
  destruct x as [[[h r] t] s], y as [[[h' r'] t'] s']. simpl. by intros [= -> -> ->].
Qed.

Lemma NoDup_joined_keys l :
  Forall fields_tab_free l → NoDup (joined <$> l) ↔ NoDup (key_of <$> l).
Proof.
  induction 1 as [|x l Hx Hl IH]; [split; constructor|].
  rewrite !fmap_cons, !NoDup_cons, IH. 
  assert (joined x ∈ joined <$> l ↔ key_of x ∈ key_of <$> l) as ->; [|done].
  rewrite !list_elem_of_fmap. split.
  - intros (y & E & Hy). exists y. split; [|done].
    apply joined_inj_tab_free; [done| |done].
    by eapply Forall_forall in Hl.
  - intros (y & E & Hy). exists y. split; [|done]. by apply joined_key.
Qed.

End KeyFacts.

Section sizes.
Context `{Countable A}.

Lemma size_list_to_set_remove_dups (l : list A) :
  size (list_to_set l : gset A) = length (remove_dups l).
Proof.
  rewrite <- (size_list_to_set (C:=gset A) (remove_dups l)) by apply NoDup_remove_dups.
  f_equal. apply set_eq. intros x.
  by rewrite !elem_of_list_to_set, elem_of_remove_dups.
Qed.

Lemma length_remove_dups_le (l : list A) : length (remove_dups l) ≤ length l.
Proof.
  induction l as [|x l IH]; simpl; [done|].
  destruct (decide_rel _ _ _); simpl; lia.
Qed.

Lemma length_remove_dups_eq (l : list A) :
  length (remove_dups l) = length l ↔ NoDup l.
Proof.
  induction l as [|x l IH]; simpl.
  - split; [constructor|done].
  - pose proof (length_remove_dups_le l).
    rewrite NoDup_cons. destruct (decide_rel _ _ _) as [Hin|Hin]; simpl.
    + split; [lia|]. by intros [? _].
    + split.
      * intros E. split; [done|]. apply IH. lia.
      * intros [_ Hnd]. f_equal. by apply IH.
Qed.

Lemma size_list_to_set_le (l : list A) : size (list_to_set l : gset A) ≤ length l.
Proof. rewrite size_list_to_set_remove_dups. apply length_remove_dups_le. Qed.

Lemma size_list_to_set_eq (l : list A) :
  size (list_to_set l : gset A) = length l ↔ NoDup l.
Proof. rewrite size_list_to_set_remove_dups. apply length_remove_dups_eq. Qed.
End sizes.

(** ** Facts about [Counter] and the sort *)

Lemma Counter_snoc l r :
  Counter (l ++ [r]) = counter_add r (Counter l).
Proof. unfold Counter. by rewrite fold_left_app. Qed.

Lemma counter_add_keys r c :
  (counter_add r c).*1 = if decide (r ∈ c.*1) then c.*1 else c.*1 ++ [r].
Proof.
  induction c as [|[k n] c IH].
  - destruct (decide (r ∈ ([] : list (string * nat)).*1)) as [Hin|_]; [|done].
    by apply elem_of_nil in Hin.
  - cbn [counter_add].
    destruct (decide (r ∈ ((k, n) :: c).*1)) as [Hin|Hin];
      destruct (String.eqb_spec k r) as [->|Hne];
      rewrite ?fmap_cons in *; cbn [fst] in *.
    + done.
    + rewrite IH. apply elem_of_cons in Hin as [?|Hin]; [congruence|].
      by rewrite decide_True.
    + destruct Hin. by left.
    + rewrite IH. rewrite decide_False; [done|]. intros ?. apply Hin. by right.
Qed.

Lemma counter_add_get r c k :
  counter_get (counter_add r c) k
  = if decide (k = r) then S (counter_get c r) else counter_get c k.
Proof.
  induction c as [|[k' n] c IH]; cbn [counter_add counter_get].
  - destruct (String.eqb_spec r k) as [->|Hne]; case_decide; congruence.
  - destruct (String.eqb_spec k' r) as [->|Hne]; cbn [counter_get].
    + destruct (String.eqb_spec r k) as [->|Hne']; case_decide; congruence.
    + destruct (String.eqb_spec k' k) as [->|Hne'].
      * case_decide; [congruence|]. destruct (String.eqb_spec k r); congruence.
      * rewrite IH. case_decide; [|done]. subst.
        destruct (String.eqb_spec k' r); congruence.
Qed.

Lemma counter_add_sum r c :
  sum_list (counter_add r c).*2 = S (sum_list c.*2).
Proof.
  induction c as [|[k n] c IH]; [done|].
  cbn [counter_add]. destruct (String.eqb k r); rewrite !fmap_cons; cbn [snd sum_list];
    [done|]. rewrite IH. lia.
Qed.

Lemma Counter_keys_NoDup l : NoDup (Counter l).*1.
Proof.
  induction l as [|r l IH] using rev_ind; [constructor|].
  rewrite Counter_snoc, counter_add_keys.
  case_decide; [done|].
  apply NoDup_app. split_and!; [done| |apply NoDup_singleton].
  intros x Hx ->%list_elem_of_singleton. done.
Qed.

Lemma Counter_keys l r : r ∈ (Counter l).*1 ↔ r ∈ l.
Proof.
  induction l as [|x l IH] using rev_ind.
  - by split; intros ?%elem_of_nil.
  - rewrite Counter_snoc, counter_add_keys, elem_of_app, list_elem_of_singleton, <- IH.
    case_decide as Hin.
    + split; [by left|]. intros [?| ->]; done.
    + by rewrite elem_of_app, list_elem_of_singleton.
Qed.

Lemma occurrences_snoc r l x :
  occurrences r (l ++ [x]) = if decide (r = x) then S (occurrences r l) else occurrences r l.
Proof.
  unfold occurrences. rewrite filter_app, length_app.
  rewrite filter_cons, filter_nil.
  repeat case_decide; subst; simpl; try lia; congruence.
Qed.

Lemma Counter_get l r : counter_get (Counter l) r = occurrences r l.
Proof.
  induction l as [|x l IH] using rev_ind; [done|].
  rewrite Counter_snoc, counter_add_get, occurrences_snoc.
  case_decide; subst; by rewrite IH.
Qed.

Lemma Counter_sum l : sum_list (Counter l).*2 = length l.
Proof.
  induction l as [|x l IH] using rev_ind; [done|].
  rewrite Counter_snoc, counter_add_sum, IH, length_app. simpl. lia.
Qed.

Lemma counter_get_elem c k n :
  NoDup c.*1 → (k, n) ∈ c → counter_get c k = n.
Proof.
  induction c as [|[k' n'] c IH]; simpl; [by intros _ ?%elem_of_nil|].
  intros [Hnin Hnd]%NoDup_cons [[= -> ->]|Hin]%elem_of_cons.
  - by rewrite String.eqb_refl.
  - destruct (String.eqb_spec k' k) as [->|Hne]; [|by apply IH].
    destruct Hnin. apply list_elem_of_fmap. by exists (k, n).
Qed.

Lemma Counter_elem l k n : (k, n) ∈ Counter l → n = occurrences k l ∧ k ∈ l.
Proof.
  intros Hin. split.
  - rewrite <- Counter_get. symmetry. apply counter_get_elem; [apply Counter_keys_NoDup|done].
  - apply Counter_keys. apply list_elem_of_fmap. by exists (k, n).
Qed.

Lemma Counter_length l :
  length (Counter l) = size (list_to_set l : gset string).
Proof.
  rewrite <- (length_fmap fst).
  rewrite <- (size_list_to_set (C:=gset string) _ (Counter_keys_NoDup l)).
  f_equal. apply set_eq. intros x. by rewrite !elem_of_list_to_set, Counter_keys.
Qed.

(** Facts about the sort. *)

Lemma ltb_le a b : String.ltb a b = true → String.le a b.
Proof.
  unfold String.le, String.ltb, String.leb. by destruct (a ?= b)%string.
Qed.

Lemma not_ltb_le a b : String.ltb a b = false → String.le b a.
Proof.
  unfold String.le, String.ltb, String.leb. rewrite (String.compare_antisym b a).
  by destruct (a ?= b)%string.
Qed.

Lemma le_ne_ltb a b : String.le a b → a ≠ b → str_lt a b.
Proof.
  unfold str_lt, String.le, String.ltb, String.leb.
  destruct (a ?= b)%string eqn:E; [|done..].
  apply String.compare_eq_iff in E. done.
Qed.

Lemma insert_by_relation_perm e l : insert_by_relation e l ≡ₚ e :: l.
Proof.
  induction l as [|x l IH]; simpl; [done|].
  destruct (String.ltb _ _); [|done].
  rewrite IH. apply Permutation_swap.
Qed.

Lemma sort_by_relation_perm l : sort_by_relation l ≡ₚ l.
Proof.
  induction l as [|x l IH]; simpl; [done|].
  by rewrite insert_by_relation_perm, IH.
Qed.

Lemma insert_by_relation_sorted e l :
  StronglySorted le_by_relation l → StronglySorted le_by_relation (insert_by_relation e l).
Proof.
  induction 1 as [|x l Hs IH Hx]; simpl.
  - repeat constructor.
  - destruct (String.ltb (rf_relation x) (rf_relation e)) eqn:E.
    + constructor; [done|].
      rewrite insert_by_relation_perm. constructor; [|done].
      by apply ltb_le.
    + apply not_ltb_le in E. constructor; [by constructor|].
      constructor; [done|].
      eapply Forall_impl; [done|]. intros y Hy. unfold le_by_relation in *.
      by etrans.
Qed.

Lemma sort_by_relation_sorted l : StronglySorted le_by_relation (sort_by_relation l).
Proof.
  induction l as [|x l IH]; simpl; [constructor|].
  by apply insert_by_relation_sorted.
Qed.

Lemma sorted_strict (l : list freq_entry) :
  NoDup (rf_relation <$> l) →
  StronglySorted le_by_relation l →
  StronglySorted str_lt (rf_relation <$> l).
Proof.
  induction 2 as [|x l Hs IH Hx]; simpl; [constructor|].
  apply NoDup_cons in H as [Hnin Hnd].
  constructor; [by apply IH|].
  apply Forall_fmap. apply Forall_forall. intros y Hy. simpl.
  apply le_ne_ltb.
  - by eapply Forall_forall in Hx.
  - intros E. apply Hnin. rewrite E. apply list_elem_of_fmap. by exists y.
Qed.

(** ** Facts about the relation-frequency table *)

Lemma percent_value_add a b t :
  percent_value (a + b) t = (percent_value a t + percent_value b t)%Qc.
Proof.
  unfold percent_value. destruct (Nat.ltb_spec 0 t) as [Ht|Ht]; [|ring].
  assert (Qc_of_nat t ≠ 0%Qc) by (rewrite Qc_of_nat_eq0; lia).
  rewrite Qc_of_nat_add. by field.
Qed.

Lemma Qc_of_nat_S n : Qc_of_nat (S n) = (1 + Qc_of_nat n)%Qc.
Proof.
  change (S n) with (1 + n). rewrite Qc_of_nat_add. f_equal; apply Z2Qc_inj_1.
Qed.

Lemma py_round_2_bounds (x : Qc) :
  (x - half_cent ≤ py_round x 2)%Qc ∧ (py_round x 2 ≤ x + half_cent)%Qc.
Proof.
  pose proof (py_round_error x 2) as H.
  apply Qabs_Qle_condition in H as [Hlo Hhi].
  change ((1 # 2) / inject_Z (10 ^ Z.of_nat 2))%Q with (1 # 200)%Q in *.
  unfold Qcle, Qcminus, Qcplus, Qcopp, half_cent. cbn [this Q2Qc].
  rewrite !Qred_correct. split; lra.
Qed.

Ltac qc_to_q :=
  unfold within_cent, Qcle, Qclt, Qcminus, Qcplus, Qcopp, Qcmult, cent, half_cent in *;
  cbn [this Q2Qc] in *;
  repeat match goal with
         | H : context [Qred _] |- _ => rewrite Qred_correct in H
         end;
  rewrite ?Qred_correct.

Lemma within_cent_refl (x : Qc) : within_cent x x.
Proof. qc_to_q. split; lra. Qed.

(** Rounding to two places moves a number by less than a hundredth. *)
Lemma py_round_within_cent (x : Qc) : within_cent (py_round x 2) x.
Proof. destruct (py_round_2_bounds x) as [Hlo Hhi]. qc_to_q. split; lra. Qed.

Lemma sum_percent_perm l l' : l ≡ₚ l' → sum_percent l = sum_percent l'.
Proof.
  unfold sum_percent.
  induction 1 as [|x l l' _ IH|x y l|l1 l2 l3 _ IH1 _ IH2]; cbn [foldr].
  - done.
  - by rewrite IH.
  - ring.
  - by rewrite IH1.
Qed.

Lemma sum_percent_exact t (c : list (string * nat)) :
  foldr (λ rc acc, (percent_value rc.2 t + acc)%Qc) 0%Qc c
  = percent_value (sum_list c.*2) t.
Proof.
  induction c as [|[k n] c IH]; cbn.
  - by rewrite percent_value_none.
  - by rewrite IH, percent_value_add.
Qed.

Lemma sum_percent_rounded t (c : list (string * nat)) :
  (percent_value (sum_list c.*2) t - Qc_of_nat (length c) * half_cent
   ≤ sum_percent (freq_value t <$> c))%Qc
  ∧ (sum_percent (freq_value t <$> c)
     ≤ percent_value (sum_list c.*2) t + Qc_of_nat (length c) * half_cent)%Qc.
Proof.
  induction c as [|[k n] c [IHlo IHhi]].
  - cbn. rewrite percent_value_none, Qc_of_nat_0.
    split; ring_simplify; apply Qcle_refl.
  - rewrite fmap_cons. unfold sum_percent in *. cbn [foldr freq_value rf_percent snd].
    rewrite fmap_cons. cbn [sum_list snd length].
    rewrite percent_value_add, Qc_of_nat_S.
    destruct (py_round_2_bounds (percent_value n t)) as [Hlo Hhi].
    split.
    + replace (percent_value n t + percent_value (sum_list c.*2) t
               - (1 + Qc_of_nat (length c)) * half_cent)%Qc
        with ((percent_value n t - half_cent)
              + (percent_value (sum_list c.*2) t - Qc_of_nat (length c) * half_cent))%Qc
        by ring.
      by apply Qcplus_le_compat.
    + replace (percent_value n t + percent_value (sum_list c.*2) t
               + (1 + Qc_of_nat (length c)) * half_cent)%Qc
        with ((percent_value n t + half_cent)
              + (percent_value (sum_list c.*2) t + Qc_of_nat (length c) * half_cent))%Qc
        by ring.
      by apply Qcplus_le_compat.
Qed.

(** ** Facts about the metrics and the run *)

Section RunFacts.

Variable float : string → option pyfloat.
Variable hash : string → Z.

Lemma avg_distance_ok l :
  avg_distance l
  = Ok (if 0 <? length l then float_over (sum_scores l) (length l) else Finite 0).
Proof.
  unfold avg_distance, total, float_truediv.
  destruct (Nat.ltb_spec 0 (length l)); [|done].
  rewrite decide_False; [done|lia].
Qed.

Lemma freq_of_ok l rc : freq_of l rc = Ok (freq_value (total l) rc).
Proof. unfold freq_of. by rewrite percent_of_value. Qed.

Lemma mapM_freq_of l c :
  mapM (freq_of l) c = Ok (freq_value (total l) <$> c).
Proof.
  induction c as [|rc c IH]; [done|].
  cbn [mapM]. rewrite freq_of_ok. cbn. by rewrite IH.
Qed.

Lemma relation_freq_ok l :
  relation_freq l = Ok (sort_by_relation (freq_value (total l) <$> rel_counts l)).
Proof. unfold relation_freq. by rewrite mapM_freq_of. Qed.

Lemma decode_triple_ok s a m x :
  decode_triple hash s a (JObj m) x = Ok (decode_value m (is_novel_flag hash s a) x).
Proof. by destruct x as [[[h r] t] sc]. Qed.

Lemma decode_from_ok s a m i l :
  decode_from hash s a (JObj m) i l
  = Ok (decode_value m (is_novel_flag hash s a) <$> take (200 - i) l).
Proof.
  revert i. induction l as [|x l IH]; intros i; cbn [decode_from].
  - by rewrite take_nil.
  - destruct (Nat.leb_spec 200 i) as [Hi|Hi].
    + by replace (200 - i) with 0 by lia.
    + rewrite decode_triple_ok. cbn. rewrite IH. cbn.
      replace (200 - i) with (S (200 - S i)) by lia. done.
Qed.

Lemma decoded_hypotheses_ok l s a m :
  decoded_hypotheses hash l s a (JObj m)
  = Ok (decode_value m (is_novel_flag hash s a) <$> take 200 l).
Proof. unfold decoded_hypotheses. by rewrite decode_from_ok. Qed.

Lemma decode_from_raise s a idn i l y :
  decode_from hash s a idn i l = Raise y → y = AttributeError.
Proof.
  revert i. induction l as [|[[[h r] t] sc] l IH]; intros i; cbn [decode_from]; [done|].
  destruct (200 <=? i); [done|].
  destruct idn; try (by intros [= <-]).
  rewrite decode_triple_ok. cbn [mbind result_bind].
  destruct (decode_from _ _ _ _ _ l) eqn:E; [done|].
  intros [= <-]. by eapply IH.
Qed.

Lemma dashboard_data_len l s rels a idn n hyps stamp log :
  decoded_hypotheses hash l s a idn = Ok hyps →
  py_len idn = Ok n →
  dashboard_data hash l s rels a idn stamp log
  = Ok (report_value hash l s rels a n hyps stamp log).
Proof.
  intros Hh Hn. unfold dashboard_data, novelty_score, overlap_score,
    uniqueness_score, relation_diversity, schema_validity.
  rewrite !percent_of_value, relation_freq_ok, avg_distance_ok, Hh, Hn. done.
Qed.

Lemma dashboard_data_ok l s rels a m stamp log :
  dashboard_data hash l s rels a (JObj m) stamp log
  = Ok (report_value hash l s rels a (size m)
          (decode_value m (is_novel_flag hash s a) <$> take 200 l) stamp log).
Proof. apply dashboard_data_len; [apply decoded_hypotheses_ok|done]. Qed.

Lemma dashboard_data_empty s rels a idn n stamp log :
  py_len idn = Ok n →
  dashboard_data hash [] s rels a idn stamp log
  = Ok (report_value hash [] s rels a n [] stamp log).
Proof. by apply dashboard_data_len. Qed.

(** A failing [dashboard_data] fails in the sampler or at [len]. *)
Lemma dashboard_data_raise l s rels a idn stamp log x :
  dashboard_data hash l s rels a idn stamp log = Raise x →
  x = AttributeError ∨ x = TypeError.
Proof.
  unfold dashboard_data, novelty_score, overlap_score,
    uniqueness_score, relation_diversity, schema_validity.
  rewrite !percent_of_value, relation_freq_ok, avg_distance_ok. cbn.
  destruct (decoded_hypotheses hash l s a idn) as [hyps|y] eqn:Hh; cbn.
  - destruct idn; cbn; intros [= <-]; auto.
  - intros [= <-]. left. by eapply decode_from_raise.
Qed.

Lemma written_prints msgs x : written (Print <$> msgs, x) = [].
Proof. unfold written. cbn. induction msgs; [done|]. by cbn. Qed.

Lemma written_saved msgs d v x :
  written ((Print <$> msgs) ++ [Dump OUTPUT_JSON d; Print (MsgSaved v)], x) = [d].
Proof.
  unfold written. cbn. rewrite omap_app.
  pose proof (written_prints msgs x) as H. unfold written in H. cbn in H.
  by rewrite H.
Qed.

(** The three ways a run ends. *)
Lemma main_cases e :
  (∃ msgs, main float hash e = (Print <$> msgs, None)
     ∧ (id_to_name_of e = None ∨ synthetic_files e = []))
  ∨ (∃ idn msgs x,
       id_to_name_of e = Some idn ∧ synthetic_files e ≠ []
       ∧ dashboard_data hash (batch float e) (real_triples_set_of hash e)
           (all_relations_of hash e) (novelty_check_active_of hash e) idn
           (now e) (training_log e) = Raise x
       ∧ main float hash e = (Print <$> msgs, Some x))
  ∨ (∃ idn msgs d v,
       id_to_name_of e = Some idn ∧ synthetic_files e ≠ []
       ∧ dashboard_data hash (batch float e) (real_triples_set_of hash e)
           (all_relations_of hash e) (novelty_check_active_of hash e) idn
           (now e) (training_log e) = Ok d
       ∧ main float hash e
         = ((Print <$> msgs) ++ [Dump OUTPUT_JSON d; Print (MsgSaved v)], None)).
Proof.
  unfold main, id_to_name_of, batch, real_triples_set_of, all_relations_of,
    novelty_check_active_of.
  destruct (mappings_file e) as [content|]; cbn [mbind option_bind].
  2: { left. exists [MsgUpdating; MsgMappingsNotFound]. by split; [|left]. }
  destruct (load_id_to_name content) as [idn|].
  2: { left. exists [MsgUpdating; MsgLoadingMappings; MsgLoadMappingsFailed].
       by split; [|left]. }
  destruct (last (synthetic_files e)) as [[name lines]|] eqn:Hlast.
  2: { left. exists [MsgUpdating; MsgLoadingMappings; MsgNoGenerated].
       split; [done|]. right. by apply last_None. }
  assert (synthetic_files e ≠ []) as Hne by (by intros E; rewrite E in Hlast).
  destruct (load_real hash (real_triples_file e)) as [[[s rels] a] msgs] eqn:Hreal.
  cbn [fst snd].
  destruct (dashboard_data _ _ _ _ _ _ _ _) as [d|x] eqn:Hd; cbn.
  - right. right. unfold schema_validity. rewrite percent_of_value. cbn.
    exists idn, ([MsgUpdating; MsgLoadingMappings; MsgAnalyzing name] ++ msgs), d.
    eexists. split_and!; [done..|]. by rewrite fmap_app.
  - right. left.
    exists idn, ([MsgUpdating; MsgLoadingMappings; MsgAnalyzing name] ++ msgs), x.
    split_and!; [done..|]. by rewrite fmap_app.
Qed.

End RunFacts.

(** ** The mode of the novelty check *)

Section ModeFacts.

Variable hash : string → Z.

Lemma novelty_check_active_iff e :
  novelty_check_active_of hash e = true ↔ corpus_available e.
Proof.
  unfold novelty_check_active_of, corpus_available, load_real.
  destruct (real_triples_file e) as [rf|].
  - destruct (memory_error rf) as [k|] eqn:Hk; cbn.
    + split; [done|]. intros (rf' & [= <-] & E). congruence.
    + split; [|done]. intros _. by exists rf.
  - cbn. split; [done|]. by intros (rf & ? & _).
Qed.

Lemma novelty_check_inactive e :
  (real_triples_file e = None
   ∨ ∃ rf k, real_triples_file e = Some rf ∧ memory_error rf = Some k) →
  novelty_check_active_of hash e = false.
Proof.
  intros H. apply not_true_is_false. rewrite novelty_check_active_iff.
  intros (rf & Hrf & Hk). destruct H as [H|(rf' & k & H & Hk')]; congruence.
Qed.

Lemma add_real_line_relations acc line :
  (add_real_line hash acc line).2
  = match relation_field line with Some b => {[ b ]} ∪ acc.2 | None => acc.2 end.
Proof.
  unfold add_real_line, relation_field.
  by destruct (Str.split Str.TAB (Str.strip line)) as [|a [|b [|c [|]]]].
Qed.

Lemma fold_real_relations lines acc :
  (fold_left (add_real_line hash) lines acc).2 = corpus_relations lines ∪ acc.2.
Proof.
  unfold corpus_relations. revert acc.
  induction lines as [|line lines IH]; intros acc; cbn [fold_left omap list_omap].
  - by rewrite list_to_set_nil, union_empty_l_L.
  - rewrite IH, add_real_line_relations.
    destruct (relation_field line) as [b|]; [|done].
    rewrite list_to_set_cons.
    by rewrite (assoc_L (∪)), (comm_L (∪) _ {[ b ]}).
Qed.

Lemma scan_real_relations lines : (scan_real hash lines).2 = corpus_relations lines.
Proof.
  unfold scan_real. rewrite fold_real_relations. cbn [snd].
  by rewrite union_empty_r_L.
Qed.

Lemma all_relations_available e rf :
  real_triples_file e = Some rf → memory_error rf = None →
  all_relations_of hash e = corpus_relations (real_lines rf).
Proof.
  intros Hrf Hk. unfold all_relations_of, load_real. rewrite Hrf, Hk. cbn.
  apply scan_real_relations.
Qed.

Lemma all_relations_missing e :
  real_triples_file e = None → all_relations_of hash e = ∅.
Proof. intros Hrf. unfold all_relations_of, load_real. by rewrite Hrf. Qed.

End ModeFacts.

(** ** The claims *)

Section Claims.

Variable float : string → option pyfloat.
Variable hash : string → Z.

(** What a run that loaded a mapping and found a batch file writes, when
    [dashboard_data] is known. *)
Lemma main_written e idn d :
  id_to_name_of e = Some idn →
  synthetic_files e ≠ [] →
  dashboard_data hash (batch float e) (real_triples_set_of hash e)
    (all_relations_of hash e) (novelty_check_active_of hash e) idn
    (now e) (training_log e) = Ok d →
  written (main float hash e) = [d] ∧ (main float hash e).2 = None.
Proof.
  intros Hid Hne Hd.
  destruct (main_cases float hash e)
    as [(msgs & _ & [E|E])|[(idn' & msgs & x & Hid' & _ & Hx & _)
                           |(idn' & msgs & d' & v & Hid' & _ & Hd' & ->)]].
  - congruence.
  - done.
  - congruence.
  - rewrite written_saved. split; [|done].
    assert (idn' = idn) as -> by congruence. congruence.
Qed.

(** No run is ended by a division by zero: every division is guarded. *)
Lemma main_no_zero_division e : (main float hash e).2 ≠ Some ZeroDivisionError.
Proof.
  destruct (main_cases float hash e)
    as [(msgs & -> & _)|[(idn & msgs & x & _ & _ & Hx & ->)
                        |(idn & msgs & d & v & _ & _ & _ & ->)]]; [done| |done].
  apply dashboard_data_raise in Hx as [-> | ->]; done.
Qed.

(** C1, as amended. A batch that parses to zero triples, with an "id2ent"
    value on which [len] does not raise (an object, an array or a
    string): the run writes one complete report and raises nothing (so no
    division by zero), and in that report novelty, overlap, uniqueness,
    relation diversity, average confidence and schema validity are 0, and
    so is the percent of every entry of the relation-frequency table (the
    table is empty). *)
Theorem empty_batch_stats_zero e idn :
  id_to_name_of e = Some idn →
  py_len idn ≠ Raise TypeError →
  synthetic_files e ≠ [] →
  batch float e = [] →
  ∃ d, written (main float hash e) = [d]
       ∧ (main float hash e).2 = None
       ∧ st_novelty (db_stats d) = 0%Qc
       ∧ st_train_overlap (db_stats d) = 0%Qc
       ∧ st_uniqueness (db_stats d) = 0%Qc
       ∧ st_relation_diversity (db_stats d) = 0%Qc
       ∧ st_avg_distance (db_stats d) = Finite 0
       ∧ st_schema_validity (db_stats d) = 0%Qc
       ∧ Forall (λ f, rf_percent f = 0%Qc) (db_relation_freq d)
       ∧ db_relation_freq d = []
       ∧ db_hypotheses d = []
       ∧ st_total_generated (db_stats d) = 0.
Proof.
  intros Hid Hlen Hne Hb.
  assert (∃ n, py_len idn = Ok n) as [n Hn].
  { destruct idn; cbn in *; by eauto. }
  eexists. split_and!.
  1, 2: eapply main_written; [done..|]; rewrite Hb; by apply dashboard_data_empty.
  all: cbn; rewrite ?percent_value_none; try apply py_round_0; try done.
  unfold float_round. destruct (Qlt_le_dec 0%Qc 0) as [Hlt|_]; [done|].
  f_equal. apply py_round_0.
Qed.

Lemma main_written_dict e m :
  id_to_name_of e = Some (JObj m) →
  synthetic_files e ≠ [] →
  written (main float hash e)
  = [report_value hash (batch float e) (real_triples_set_of hash e)
       (all_relations_of hash e) (novelty_check_active_of hash e) (size m)
       (decode_value m
          (is_novel_flag hash (real_triples_set_of hash e)
             (novelty_check_active_of hash e))
        <$> take 200 (batch float e))
       (now e) (training_log e)]
  ∧ (main float hash e).2 = None.
Proof. intros Hid Hne. eapply main_written; [done..|]. apply dashboard_data_ok. Qed.

(** C2. A non-empty batch and no usable reference corpus (the file is
    missing, or its load ran out of memory): the report shows novelty 100
    and overlap 0, and every sampled hypothesis is flagged novel. *)
Theorem corpus_unavailable_all_novel e m :
  id_to_name_of e = Some (JObj m) →
  synthetic_files e ≠ [] →
  batch float e ≠ [] →
  (real_triples_file e = None
   ∨ ∃ rf k, real_triples_file e = Some rf ∧ memory_error rf = Some k) →
  ∃ d, written (main float hash e) = [d]
       ∧ st_novelty (db_stats d) = Qc_of_nat 100
       ∧ st_train_overlap (db_stats d) = 0%Qc
       ∧ length (db_hypotheses d) = min 200 (length (batch float e))
       ∧ Forall (λ h, hyp_is_novel h = true) (db_hypotheses d).
Proof.
  intros Hid Hne Hb Hreal.
  destruct (main_written_dict e m Hid Hne) as [Hw _].
  apply (novelty_check_inactive hash) in Hreal.
  eexists. split; [exact Hw|]. rewrite Hreal. cbn.
  assert (0 < length (batch float e)) by (destruct (batch float e); [done|cbn; lia]).
  unfold overlap_count, novel_count, total. rewrite Nat.sub_diag.
  rewrite percent_value_full, percent_value_none by done.
  split_and!.
  - apply py_round_nat.
  - apply py_round_0.
  - by rewrite length_fmap, length_take.
  - apply Forall_fmap, Forall_forall. by intros [[[h r] t] sc] _.
Qed.

(** C3, as amended. The report has no field for the mode of the novelty
    check.  The mode is active exactly when the reference file exists and
    loads to its end, and the report only carries what the mode produced:
    when inactive, every triple is counted novel and every sampled
    hypothesis is flagged novel; when active, a triple counts as novel, and
    a sampled hypothesis is flagged novel, exactly when the hash of its
    tab-joined key is not in the reference set.  The reported novelty is
    the share of the triples counted novel, up to the rounding to two
    places. *)
Theorem novelty_mode_only_through_values e m :
  id_to_name_of e = Some (JObj m) →
  synthetic_files e ≠ [] →
  (novelty_check_active_of hash e = true ↔ corpus_available e)
  ∧ ∃ d, written (main float hash e) = [d]
      ∧ hyp_is_novel <$> db_hypotheses d
        = (λ x, if novelty_check_active_of hash e
                then bool_decide (hash (joined x) ∉ real_triples_set_of hash e)
                else true) <$> take 200 (batch float e)
      ∧ within_cent (st_novelty (db_stats d))
          (percent_value
             (if novelty_check_active_of hash e
              then length (filter (λ x, hash (joined x) ∉ real_triples_set_of hash e)
                             (batch float e))
              else length (batch float e))
             (length (batch float e))).
Proof.
  intros Hid Hne. split; [apply novelty_check_active_iff|].
  destruct (main_written_dict e m Hid Hne) as [Hw _].
  eexists. split; [exact Hw|]. cbn. split.
  - rewrite <- list_fmap_compose. apply list_fmap_ext.
    by intros i [[[h r] t] sc] _.
  - assert (novel_count hash (batch float e) (real_triples_set_of hash e)
              (novelty_check_active_of hash e)
            = if novelty_check_active_of hash e
              then length (filter (λ x, hash (joined x) ∉ real_triples_set_of hash e)
                             (batch float e))
              else length (batch float e)) as <-; [|apply py_round_within_cent].
    unfold novel_count, total. destruct (novelty_check_active_of hash e); [|done].
    f_equal. apply list_filter_iff. intros x. unfold not_in_real.
    apply bool_decide_eq_true.
Qed.

Lemma joined_of_key x : joined x = Str.tab_join (key_of x).1.1 (key_of x).1.2 (key_of x).2.
Proof. by destruct x as [[[h r] t] sc]. Qed.

Lemma same_keys_same_joined (b b' : list scored) :
  key_of <$> b' = key_of <$> b → joined <$> b' = joined <$> b.
Proof.
  intros E.
  assert (∀ l : list scored, joined <$> l
               = (λ k : string * string * string, Str.tab_join k.1.1 k.1.2 k.2)
                 <$> (key_of <$> l)) as Hj.
  { intros l. rewrite <- list_fmap_compose. apply list_fmap_ext.
    intros i x _. apply joined_of_key. }
  by rewrite !Hj, E.
Qed.

(** C4, as amended. For every batch read from a file the uniqueness score
    is at most 100; it is 0 for the empty batch; for a non-empty batch it
    is 100 exactly when the (head, relation, tail) keys are pairwise
    distinct.  The key leaves the score out: batches with the same keys in
    the same order have the same number of unique triples, and two triples
    that differ only in their score count as one. *)
Theorem uniqueness_score_spec (lines : list string) :
  ∃ q, uniqueness_score (read_generated float lines) = Ok q
     ∧ (q ≤ Qc_of_nat 100)%Qc
     ∧ (read_generated float lines = [] → q = 0%Qc)
     ∧ (read_generated float lines ≠ [] →
        q = Qc_of_nat 100 ↔ NoDup (key_of <$> read_generated float lines))
     ∧ (∀ b' : list scored,
          key_of <$> b' = key_of <$> read_generated float lines →
          unique_triples b' = unique_triples (read_generated float lines))
     ∧ (∀ h r t s1 s2, unique_triples [(h, r, t, s1); (h, r, t, s2)] = 1).
Proof.
  set (b := read_generated float lines).
  assert (unique_triples b ≤ length b) as Hle.
  { unfold unique_triples. rewrite <- (length_fmap joined b). apply size_list_to_set_le. }
  exists (percent_value (unique_triples b) (length b)). split_and!.
  - apply percent_of_value.
  - by apply percent_value_le.
  - intros ->. done.
  - intros Hb. assert (0 < length b) as Hpos by (destruct b; [done|cbn; lia]).
    rewrite <- NoDup_joined_keys by apply read_generated_tab_free.
    rewrite <- size_list_to_set_eq, length_fmap. fold (unique_triples b). split.
    + by apply percent_value_full_inv.
    + intros ->. by apply percent_value_full.
  - intros b' E. unfold unique_triples. by rewrite (same_keys_same_joined _ _ E).
  - intros h r t s1 s2. unfold unique_triples. cbn.
    rewrite union_empty_r_L, union_idemp_L. apply size_singleton.
Qed.

(** C5, as amended. Schema validity of one triple, by the category its
    relation maps to: "year" - a tail of ASCII characters is valid exactly
    when it is a non-empty run of the decimal digits 0 to 9; "author" -
    valid exactly when "author" occurs in the tail; any other category, or
    no rule - valid.  The score is the percentage of the triples that
    pass, up to rounding.  A "year" relation accepts the tail 2021 and
    rejects twenty-twenty-one; an "author" relation accepts author_42 and
    rejects A. Smith. *)
Theorem schema_validity_rule :
  (∀ r t, relation_tail_rules !! r = Some "year" → ascii_text t →
     is_valid r t = true
     ↔ t ≠ "" ∧ Forall decimal_digit (list_ascii_of_string t))
  ∧ (∀ r t, relation_tail_rules !! r = Some "author" →
       is_valid r t = true ↔ substring "author" t)
  ∧ (∀ r t, (∀ cat, relation_tail_rules !! r = Some cat →
               cat ≠ "year" ∧ cat ≠ "author") →
       is_valid r t = true)
  ∧ (∀ l : list scored,
       ∃ q, schema_validity l = Ok q
          ∧ within_cent q
              (percent_value
                 (length (filter (λ x, is_valid (relation_of x) (key_of x).2 = true) l))
                 (length l)))
  ∧ relation_tail_rules !! "dblp:publishedInYear" = Some "year"
  ∧ is_valid "dblp:publishedInYear" "2021" = true
  ∧ is_valid "dblp:publishedInYear" "twenty-twenty-one" = false
  ∧ relation_tail_rules !! "dblp:hasAuthor" = Some "author"
  ∧ is_valid "dblp:hasAuthor" "author_42" = true
  ∧ is_valid "dblp:hasAuthor" "A. Smith" = false.
Proof.
  split_and!; try reflexivity.
  - intros r t Hr _. unfold is_valid. rewrite Hr. cbn.
    rewrite <- isdigit_spec. by destruct (Str.isdigit t).
  - intros r t Hr. unfold is_valid. rewrite Hr.
    rewrite <- contains_spec.
    change ("author" =? "")%string with false.
    change ("author" =? "year")%string with false.
    change ("author" =? "author")%string with true.
    cbn [andb]. by destruct (Str.contains "author" t).
  - intros r t Hr. unfold is_valid.
    destruct (relation_tail_rules !! r) as [cat|]; [|done].
    destruct (Hr cat eq_refl) as [Hy Ha].
    destruct (String.eqb_spec cat ""); [done|].
    destruct (String.eqb_spec cat "year"); [done|].
    destruct (String.eqb_spec cat "author"); done.
  - intros l. eexists. split; [apply percent_of_value|].
    apply within_cent_refl.
Qed.

(** C6, as amended. The sample of the report holds min(200, total)
    hypotheses; the i-th one decodes the i-th triple of the batch, in file
    order: head and tail are looked up in the identifier map and stay as
    they are when unmapped; every "dblp:" is removed from the relation,
    wherever it occurs (a label without it is unchanged; otherwise the
    first occurrence goes and the removal continues behind it); the score
    of a finite number is text with four digits after the point that
    denotes the score rounded to four places, with a minus sign exactly
    for a negative score, and the other scores are written -0.0000, inf,
    -inf and nan. *)
Theorem hypothesis_sample_spec e m :
  id_to_name_of e = Some (JObj m) →
  synthetic_files e ≠ [] →
  ∃ d, written (main float hash e) = [d]
     ∧ length (db_hypotheses d) = min 200 (length (batch float e))
     ∧ ∀ i hyp, db_hypotheses d !! i = Some hyp →
         ∃ h r t sc,
           i < 200
           ∧ batch float e !! i = Some (h, r, t, sc)
           ∧ hyp_head hyp = default (JStr h) (m !! h)
           ∧ hyp_tail hyp = default (JStr t) (m !! t)
           ∧ hyp_relation hyp = Str.remove "dblp:" r
           ∧ (Str.contains "dblp:" r = false → hyp_relation hyp = r)
           ∧ (∀ a b, r = a +:+ "dblp:" +:+ b → Str.contains "dblp:" a = false →
                hyp_relation hyp = a +:+ Str.remove "dblp:" b)
           ∧ (∀ q, sc = Finite q →
                Decimal.parse (hyp_score hyp) = Some (py_round q 4)
                ∧ ∃ sign ip fp,
                    hyp_score hyp = sign +:+ ip +:+ "." +:+ fp
                    ∧ (sign = "-" ↔ (q < 0)%Qc)
                    ∧ (sign = "" ↔ (0 ≤ q)%Qc)
                    ∧ Str.isdigit ip = true
                    ∧ String.length fp = 4
                    ∧ Str.all_digits fp = true)
           ∧ (sc = NegZero → hyp_score hyp = "-0.0000")
           ∧ (sc = PosInf → hyp_score hyp = "inf")
           ∧ (sc = NegInf → hyp_score hyp = "-inf")
           ∧ (sc = NaN → hyp_score hyp = "nan").
Proof.
  intros Hid Hne.
  destruct (main_written_dict e m Hid Hne) as [Hw _].
  eexists. split; [exact Hw|]. cbn. split.
  - by rewrite length_fmap, length_take.
  - intros i hyp Hi.
    apply list_lookup_fmap_Some in Hi as ([[[h r] t] sc] & -> & Hx).
    apply lookup_take_Some in Hx as [Hx Hlt].
    exists h, r, t, sc. cbn. split_and!; try done.
    + apply remove_absent.
    + intros a b -> Ha. by apply remove_dblp_first.
    + intros q ->. cbn. split; [apply parse_format_4f|].
      unfold format_4f. eexists _, _, _. split; [reflexivity|]. split_and!.
      * destruct (Qlt_le_dec q 0) as [Hq|Hq]; split; try done.
        intros Hq'. by apply (Qlt_not_le _ _ Hq') in Hq.
      * destruct (Qlt_le_dec q 0) as [Hq|Hq]; split; try done.
        intros Hq'. by apply (Qlt_not_le _ _ Hq) in Hq'.
      * apply digits_isdigit.
      * reflexivity.
      * cbn. by rewrite !digit_char_isdigit.
    + by intros ->.
    + by intros ->.
    + by intros ->.
    + by intros ->.
Qed.

Lemma relation_freq_keys (l : list scored) :
  rf_relation <$> sort_by_relation (freq_value (total l) <$> rel_counts l)
  ≡ₚ (rel_counts l).*1.
Proof.
  rewrite sort_by_relation_perm, <- list_fmap_compose. done.
Qed.

(** C7. A non-empty batch: the relation-frequency table of the report has
    one entry per distinct relation of the batch, with its number of
    occurrences and, up to the rounding to two places, its share of the
    batch; the entries are in strictly ascending order of their relation;
    the counts sum to the size of the batch, and the reported percents sum
    to 100 within a hundredth per entry. *)
Theorem relation_freq_spec e m :
  id_to_name_of e = Some (JObj m) →
  synthetic_files e ≠ [] →
  batch float e ≠ [] →
  ∃ d, written (main float hash e) = [d]
     ∧ NoDup (rf_relation <$> db_relation_freq d)
     ∧ (∀ r, r ∈ rf_relation <$> db_relation_freq d
             ↔ r ∈ relation_of <$> batch float e)
     ∧ (∀ f, f ∈ db_relation_freq d →
          rf_count f = occurrences (rf_relation f) (relation_of <$> batch float e)
          ∧ within_cent (rf_percent f)
              (percent_value (rf_count f) (length (batch float e))))
     ∧ StronglySorted str_lt (rf_relation <$> db_relation_freq d)
     ∧ sum_list (rf_count <$> db_relation_freq d) = length (batch float e)
     ∧ (Qc_of_nat 100 - Qc_of_nat (length (db_relation_freq d)) * cent
        < sum_percent (db_relation_freq d))%Qc
     ∧ (sum_percent (db_relation_freq d)
        < Qc_of_nat 100 + Qc_of_nat (length (db_relation_freq d)) * cent)%Qc.
Proof.
  intros Hid Hne Hb.
  destruct (main_written_dict e m Hid Hne) as [Hw _].
  eexists. split; [exact Hw|]. cbn [db_relation_freq report_value].
  set (b := batch float e) in *.
  set (c := rel_counts b).
  pose proof (relation_freq_keys b) as Hkeys. fold c in Hkeys.
  assert (0 < length b) as Hpos by (destruct b; [done|cbn; lia]).
  assert (sum_list c.*2 = length b) as Hsum.
  { unfold c, rel_counts. by rewrite Counter_sum, length_fmap. }
  assert (NoDup c.*1) as Hnd by apply Counter_keys_NoDup.
  assert (0 < length c) as Hc.
  { destruct c as [|rc c']; [cbn in Hsum; lia|cbn; lia]. }
  assert (0 < Qc_of_nat (length c))%Qc as Hk by by apply Qc_of_nat_pos.
  destruct (sum_percent_rounded (total b) c) as [Hlo Hhi].
  rewrite Hsum in Hlo, Hhi. unfold total in Hlo at 1. unfold total in Hhi at 2.
  rewrite percent_value_full in Hlo, Hhi by done.
  split_and!.
  - by rewrite Hkeys.
  - intros r. rewrite Hkeys. apply Counter_keys.
  - intros f Hf. rewrite sort_by_relation_perm in Hf.
    apply list_elem_of_fmap in Hf as ([k n] & -> & Hkn). cbn.
    split; [by apply Counter_elem in Hkn as [-> _]|apply py_round_within_cent].
  - apply sorted_strict; [by rewrite Hkeys|apply sort_by_relation_sorted].
  - assert (rf_count <$> sort_by_relation (freq_value (total b) <$> c) ≡ₚ c.*2) as ->.
    { rewrite sort_by_relation_perm, <- list_fmap_compose. done. }
    exact Hsum.
  - rewrite (sum_percent_perm _ _ (sort_by_relation_perm _)).
    rewrite sort_by_relation_perm, length_fmap.
    qc_to_q. lra.
  - rewrite (sum_percent_perm _ _ (sort_by_relation_perm _)).
    rewrite sort_by_relation_perm, length_fmap.
    qc_to_q. lra.
Qed.

(** C8, as amended. Relation diversity is, up to the rounding to two
    places, the number of distinct relations of the batch over the
    vocabulary size, as a percentage.  When the reference file loads to
    its end the vocabulary size is the number of distinct relations of its
    three-field lines if there is at least one, and 15 if there is none;
    when the reference file is missing it is 15. *)
Theorem relation_diversity_spec e m :
  id_to_name_of e = Some (JObj m) →
  synthetic_files e ≠ [] →
  ∃ d, written (main float hash e) = [d]
     ∧ (∀ rf, real_triples_file e = Some rf → memory_error rf = None →
          corpus_relations (real_lines rf) ≠ ∅ →
          within_cent (st_relation_diversity (db_stats d))
            (percent_value
               (size (list_to_set (relation_of <$> batch float e) : gset string))
               (size (corpus_relations (real_lines rf)))))
     ∧ (∀ rf, real_triples_file e = Some rf → memory_error rf = None →
          corpus_relations (real_lines rf) = ∅ →
          within_cent (st_relation_diversity (db_stats d))
            (percent_value
               (size (list_to_set (relation_of <$> batch float e) : gset string))
               15))
     ∧ (real_triples_file e = None →
          within_cent (st_relation_diversity (db_stats d))
            (percent_value
               (size (list_to_set (relation_of <$> batch float e) : gset string))
               15)).
Proof.
  intros Hid Hne.
  destruct (main_written_dict e m Hid Hne) as [Hw _].
  eexists. split; [exact Hw|]. cbn [db_stats st_relation_diversity report_value].
  unfold used_relations, rel_counts. rewrite Counter_length.
  split_and!.
  - intros rf Hrf Hk Hrel. rewrite (all_relations_available hash e rf Hrf Hk).
    unfold total_relations. rewrite decide_True by done.
    apply py_round_within_cent.
  - intros rf Hrf Hk Hrel. rewrite (all_relations_available hash e rf Hrf Hk).
    unfold total_relations. rewrite decide_False; [apply py_round_within_cent|].
    by intros ?.
  - intros Hrf. rewrite (all_relations_missing hash e Hrf).
    unfold total_relations. rewrite decide_False; [apply py_round_within_cent|].
    by intros ?.
Qed.

(** C9. A run whose mapping file is missing or cannot be parsed, or that
    finds no generated-batch file, writes no report.  Every run writes at
    most one report; when it writes one, no exception ended the run and
    the write is its last action but for the closing message: everything
    before it is a message. *)
Theorem report_written_once_at_end e :
  ((mappings_file e = None ∨ mappings_file e = Some None ∨ synthetic_files e = []) →
   written (main float hash e) = [])
  ∧ length (written (main float hash e)) ≤ 1
  ∧ (∀ d, d ∈ written (main float hash e) →
       (main float hash e).2 = None
       ∧ id_to_name_of e ≠ None
       ∧ synthetic_files e ≠ []
       ∧ ∃ msgs v,
           (main float hash e).1
           = (Print <$> msgs) ++ [Dump OUTPUT_JSON d; Print (MsgSaved v)]).
Proof.
  destruct (main_cases float hash e)
    as [(msgs & Hm & Hc)|[(idn & msgs & x & Hid & Hne & _ & Hm)
                         |(idn & msgs & d' & v & Hid & Hne & _ & Hm)]];
    rewrite Hm.
  - rewrite written_prints. split_and!; [done|cbn; lia|].
    by intros d ?%elem_of_nil.
  - rewrite written_prints. split_and!; [done|cbn; lia|].
    by intros d ?%elem_of_nil.
  - rewrite written_saved. split_and!.
    + unfold id_to_name_of in Hid.
      intros [E|[E|E]]; [rewrite E in Hid..|]; done.
    + done.
    + intros d ->%list_elem_of_singleton. split_and!; [done|congruence|done|].
      by exists msgs, v.
Qed.

(** C10, as amended. A mapping file that parses as a JSON object without
    the "id2ent" field does not stop the run: the identifier map is empty,
    and when a generated-batch file exists the report is written, its
    mapping size is 0, and the head and the tail of every sampled
    hypothesis are the raw identifiers of its triple. *)
Theorem missing_id2ent_field e m :
  mappings_file e = Some (Some (JObj m)) →
  m !! "id2ent" = None →
  synthetic_files e ≠ [] →
  id_to_name_of e = Some (JObj ∅)
  ∧ ∃ d, written (main float hash e) = [d]
       ∧ (main float hash e).2 = None
       ∧ st_total_knowledge_base (db_stats d) = 0
       ∧ length (db_hypotheses d) = min 200 (length (batch float e))
       ∧ ∀ i hyp, db_hypotheses d !! i = Some hyp →
           ∃ h r t sc,
             batch float e !! i = Some (h, r, t, sc)
             ∧ hyp_head hyp = JStr h
             ∧ hyp_tail hyp = JStr t.
Proof.
  intros Hmap Hm Hne.
  assert (id_to_name_of e = Some (JObj ∅)) as Hid.
  { unfold id_to_name_of. rewrite Hmap. cbn. by rewrite Hm. }
  split; [done|].
  destruct (main_written_dict e ∅ Hid Hne) as [Hw Hx].
  eexists. split_and!; [exact Hw|exact Hx|..]; cbn.
  - apply map_size_empty.
  - by rewrite length_fmap, length_take.
  - intros i hyp Hi.
    apply list_lookup_fmap_Some in Hi as ([[[h r] t] sc] & -> & Hx').
    apply lookup_take_Some in Hx' as [Hx' _].
    exists h, r, t, sc. cbn. by rewrite !lookup_empty.
Qed.

End Claims.

(** ** The claims on concrete runs *)

(** C1, as stated, fails: with the number 5 as "id2ent" value and a batch
    file that holds its header line only, the mapping loads, the batch is
    empty, [len(id_to_name)] raises TypeError and no report is written. *)
Lemma empty_batch_without_report :
  id_to_name_of Sample.env_number_mapping = Some (JNum (Qc_of_nat 5))
  ∧ synthetic_files Sample.env_number_mapping
    = [("generated_1.txt", [Sample.header])]
  ∧ batch Sample.decimal_float Sample.env_number_mapping = []
  ∧ (main Sample.decimal_float Sample.poly_hash Sample.env_number_mapping).2
    = Some TypeError
  ∧ written (main Sample.decimal_float Sample.poly_hash Sample.env_number_mapping) = [].
Proof. split_and!; reflexivity. Qed.

(** C1, as amended, on a batch file that holds its header line only. *)
Lemma empty_batch_stats_zero_witness :
  ∃ d, written (main Sample.decimal_float Sample.poly_hash Sample.env_empty_batch) = [d]
       ∧ st_novelty (db_stats d) = 0%Qc
       ∧ st_uniqueness (db_stats d) = 0%Qc
       ∧ st_relation_diversity (db_stats d) = 0%Qc
       ∧ st_avg_distance (db_stats d) = Finite 0.
Proof.
  destruct (empty_batch_stats_zero Sample.decimal_float Sample.poly_hash
              Sample.env_empty_batch
              (JObj (<["e1" := JStr "Alice"]> {[ "e2" := JStr "Bob" ]})))
    as (d & Hw & _ & Hn & _ & Hu & Hd & Ha & _);
    [reflexivity|discriminate|discriminate|reflexivity|].
  exists d. by split_and!.
Defined.

(** C2 on the two-line batch without a reference file. *)
Lemma corpus_unavailable_all_novel_witness :
  ∃ d, written (main Sample.decimal_float Sample.poly_hash Sample.env_no_corpus) = [d]
       ∧ st_novelty (db_stats d) = Qc_of_nat 100
       ∧ st_train_overlap (db_stats d) = 0%Qc
       ∧ length (db_hypotheses d) = 2
       ∧ Forall (λ h, hyp_is_novel h = true) (db_hypotheses d).
Proof.
  apply (corpus_unavailable_all_novel Sample.decimal_float Sample.poly_hash
           Sample.env_no_corpus (<["e1" := JStr "Alice"]> {[ "e2" := JStr "Bob" ]}));
    [reflexivity|discriminate|vm_compute; discriminate|left; reflexivity].
Defined.

(** C3, as stated, fails: a run without a reference file and a run with an
    empty reference file differ in the mode of the novelty check and write
    the same report, so no reader of the report can tell the mode. *)
Lemma report_hides_novelty_mode :
  novelty_check_active_of Sample.poly_hash Sample.env_no_corpus = false
  ∧ novelty_check_active_of Sample.poly_hash Sample.env_empty_corpus = true
  ∧ written (main Sample.decimal_float Sample.poly_hash Sample.env_no_corpus)
    = written (main Sample.decimal_float Sample.poly_hash Sample.env_empty_corpus)
  ∧ length (written (main Sample.decimal_float Sample.poly_hash Sample.env_no_corpus)) = 1
  ∧ ¬ ∃ flag : dashboard → bool, ∀ e d,
        written (main Sample.decimal_float Sample.poly_hash e) = [d] →
        flag d = novelty_check_active_of Sample.poly_hash e.
Proof.
  assert (written (main Sample.decimal_float Sample.poly_hash Sample.env_no_corpus)
          = written (main Sample.decimal_float Sample.poly_hash Sample.env_empty_corpus))
    as Heq by (vm_compute; reflexivity).
  assert (length (written (main Sample.decimal_float Sample.poly_hash
                             Sample.env_no_corpus)) = 1) as Hlen by reflexivity.
  split_and!; [reflexivity|reflexivity|exact Heq|exact Hlen|].
  intros (flag & Hflag).
  pose proof (Hflag Sample.env_no_corpus) as H1.
  pose proof (Hflag Sample.env_empty_corpus) as H2.
  rewrite <- Heq in H2.
  destruct (written (main Sample.decimal_float Sample.poly_hash Sample.env_no_corpus))
    as [|d [|]]; [discriminate Hlen| |discriminate Hlen].
  specialize (H1 d eq_refl). specialize (H2 d eq_refl).
  rewrite H1 in H2. discriminate H2.
Qed.

(** C3, as amended, on the two-line batch with its reference file: the
    known triple is flagged false, the new one true, and novelty is 50. *)
Lemma novelty_mode_only_through_values_witness :
  (novelty_check_active_of Sample.poly_hash Sample.env_two = true
   ↔ corpus_available Sample.env_two)
  ∧ ∃ d, written (main Sample.decimal_float Sample.poly_hash Sample.env_two) = [d]
       ∧ hyp_is_novel <$> db_hypotheses d = [false; true]
       ∧ within_cent (st_novelty (db_stats d)) (percent_value 1 2).
Proof.
  apply (novelty_mode_only_through_values Sample.decimal_float Sample.poly_hash
           Sample.env_two (<["e1" := JStr "Alice"]> {[ "e2" := JStr "Bob" ]}));
    [reflexivity|discriminate].
Defined.

(** C4, as stated, fails on the empty batch: its keys are pairwise
    distinct and its uniqueness score is 0, not 100. *)
Lemma uniqueness_of_empty_batch :
  read_generated Sample.decimal_float [Sample.header] = []
  ∧ uniqueness_score (read_generated Sample.decimal_float [Sample.header]) = Ok 0%Qc
  ∧ NoDup (key_of <$> read_generated Sample.decimal_float [Sample.header])
  ∧ ¬ (uniqueness_score (read_generated Sample.decimal_float [Sample.header])
       = Ok (Qc_of_nat 100)
       ↔ NoDup (key_of <$> read_generated Sample.decimal_float [Sample.header])).
Proof.
  split_and!; [reflexivity|reflexivity|constructor|].
  intros [_ H]. specialize (H (NoDup_nil_2)). discriminate H.
Qed.

(** C4, as amended, on a batch of two lines that differ in their score
    only: one key, a uniqueness of 50, and keys that are not distinct. *)
Lemma uniqueness_score_spec_witness :
  ∃ q, uniqueness_score
         (read_generated Sample.decimal_float
            [Sample.header; Sample.row ["e1"; "r1"; "e2"; "0.9"];
             Sample.row ["e1"; "r1"; "e2"; "0.5"]]) = Ok q
     ∧ q = Qc_of_nat 50
     ∧ ¬ NoDup (key_of <$> read_generated Sample.decimal_float
                  [Sample.header; Sample.row ["e1"; "r1"; "e2"; "0.9"];
                   Sample.row ["e1"; "r1"; "e2"; "0.5"]]).
Proof.
  destruct (uniqueness_score_spec Sample.decimal_float
              [Sample.header; Sample.row ["e1"; "r1"; "e2"; "0.9"];
               Sample.row ["e1"; "r1"; "e2"; "0.5"]])
    as (q & Hq & _ & _ & Hiff & _).
  exists q. split; [exact Hq|].
  assert (q = Qc_of_nat 50) as Hq50.
  { injection Hq as <-. apply Qc_is_canon. reflexivity. }
  split; [exact Hq50|].
  intros Hnd. apply Hiff in Hnd; [|discriminate].
  rewrite Hq50 in Hnd. discriminate Hnd.
Defined.

(** C5, as stated, fails: the reader gives an empty tail for a line whose
    third field is empty; the empty text is composed of decimal digits
    only, as it has no other character, and a "year" relation rejects it. *)
Lemma empty_year_tail_rejected :
  key_of <$> batch Sample.decimal_float Sample.env_empty_year
  = [("p1", "dblp:publishedInYear", "")]
  ∧ relation_tail_rules !! "dblp:publishedInYear" = Some "year"
  ∧ Forall decimal_digit (list_ascii_of_string "")
  ∧ is_valid "dblp:publishedInYear" "" = false
  ∧ ∃ d, written (main Sample.decimal_float Sample.poly_hash Sample.env_empty_year) = [d]
       ∧ st_schema_validity (db_stats d) = 0%Qc.
Proof.
  split_and!; [reflexivity|reflexivity|constructor|reflexivity|].
  eexists. split; [reflexivity|]. apply Qc_is_canon. reflexivity.
Qed.

(** C6, as stated, fails: "dblp:" is removed from the middle of a label,
    which has no such prefix, and twice from a label that starts with it
    twice; and the score NaN, which [float] reads from the text nan, is
    written as nan, without decimal digits. *)
Lemma relation_label_not_prefix_stripped :
  relation_of <$> batch Sample.decimal_float Sample.env_inner_prefix
  = ["xdblp:y"; "dblp:dblp:z"]
  ∧ score_of <$> take 1 (batch Sample.decimal_float Sample.env_inner_prefix) = [NaN]
  ∧ Str.startswith "dblp:" "xdblp:y" = false
  ∧ ∃ d, written (main Sample.decimal_float Sample.poly_hash Sample.env_inner_prefix)
         = [d]
       ∧ hyp_relation <$> db_hypotheses d = ["xy"; "z"]
       ∧ hyp_score <$> db_hypotheses d = ["nan"; "0.5000"].
Proof.
  split_and!; [reflexivity|reflexivity|reflexivity|].
  eexists. split; [reflexivity|]. split; reflexivity.
Qed.

(** C6, as amended, on the two-line batch: mapped names, the raw
    identifier e3, and scores with four decimals. *)
Lemma hypothesis_sample_spec_witness :
  ∃ d, written (main Sample.decimal_float Sample.poly_hash Sample.env_two) = [d]
     ∧ (hyp_head <$> db_hypotheses d) = [JStr "Alice"; JStr "Alice"]
     ∧ (hyp_tail <$> db_hypotheses d) = [JStr "Bob"; JStr "e3"]
     ∧ (hyp_relation <$> db_hypotheses d) = ["r1"; "r2"]
     ∧ (hyp_score <$> db_hypotheses d) = ["0.9000"; "0.5000"].
Proof.
  destruct (hypothesis_sample_spec Sample.decimal_float Sample.poly_hash
              Sample.env_two (<["e1" := JStr "Alice"]> {[ "e2" := JStr "Bob" ]}))
    as (d & Hw & _); [reflexivity|discriminate|].
  exists d. split; [exact Hw|].
  injection Hw as <-. by vm_compute.
Defined.

(** C7 on the two-line batch: r1 and r2, once each, 50 + 50 = 100. *)
Lemma relation_freq_spec_witness :
  ∃ d, written (main Sample.decimal_float Sample.poly_hash Sample.env_two) = [d]
     ∧ (rf_relation <$> db_relation_freq d) = ["r1"; "r2"]
     ∧ (rf_count <$> db_relation_freq d) = [1; 1]
     ∧ sum_percent (db_relation_freq d) = Qc_of_nat 100.
Proof.
  destruct (relation_freq_spec Sample.decimal_float Sample.poly_hash
              Sample.env_two (<["e1" := JStr "Alice"]> {[ "e2" := JStr "Bob" ]}))
    as (d & Hw & _); [reflexivity|discriminate|vm_compute; discriminate|].
  exists d. split; [exact Hw|].
  injection Hw as <-. split_and!; [reflexivity..|].
  apply Qc_is_canon. reflexivity.
Defined.

(** C8, as stated, fails: with a reference file that is there and empty
    the corpus is available and has no relation, and the vocabulary size is
    the default 15; two relations of the batch give a diversity of 13.33. *)
Lemma default_vocabulary_with_corpus :
  corpus_available Sample.env_empty_corpus
  ∧ novelty_check_active_of Sample.poly_hash Sample.env_empty_corpus = true
  ∧ size (all_relations_of Sample.poly_hash Sample.env_empty_corpus) = 0
  ∧ total_relations (all_relations_of Sample.poly_hash Sample.env_empty_corpus) = 15
  ∧ ∃ d, written (main Sample.decimal_float Sample.poly_hash Sample.env_empty_corpus) = [d]
       ∧ st_relation_diversity (db_stats d) = Q2Qc (1333 # 100).
Proof.
  split_and!.
  - eexists. split; reflexivity.
  - reflexivity.
  - reflexivity.
  - reflexivity.
  - eexists. split; [reflexivity|]. apply Qc_is_canon. reflexivity.
Qed.

(** C8, as amended, on the two-line batch: two relations over a
    vocabulary of one. *)
Lemma relation_diversity_spec_witness :
  ∃ d, written (main Sample.decimal_float Sample.poly_hash Sample.env_two) = [d]
     ∧ st_relation_diversity (db_stats d) = Qc_of_nat 200.
Proof.
  destruct (relation_diversity_spec Sample.decimal_float Sample.poly_hash
              Sample.env_two (<["e1" := JStr "Alice"]> {[ "e2" := JStr "Bob" ]}))
    as (d & Hw & Hsome & _); [reflexivity|discriminate|].
  exists d. split; [exact Hw|].
  injection Hw as <-. apply Qc_is_canon. reflexivity.
Defined.

(** A load of the reference file that runs out of memory after its first
    line keeps the relation of that line: the check is off, and the
    vocabulary size is 1, not the default. *)
Lemma memory_error_keeps_relations :
  novelty_check_active_of Sample.poly_hash Sample.env_memory_error = false
  ∧ real_triples_set_of Sample.poly_hash Sample.env_memory_error = ∅
  ∧ total_relations (all_relations_of Sample.poly_hash Sample.env_memory_error) = 1.
Proof. split_and!; reflexivity. Qed.

(** C9 on runs without a mapping file, with an unreadable one, and
    without a batch file; the full run writes one report. *)
Lemma report_written_once_at_end_witness :
  written (main Sample.decimal_float Sample.poly_hash
             (Sample.with_mappings None Sample.env_two)) = []
  ∧ written (main Sample.decimal_float Sample.poly_hash
               (Sample.with_mappings (Some None) Sample.env_two)) = []
  ∧ written (main Sample.decimal_float Sample.poly_hash
               (Sample.with_batch [] Sample.env_two)) = []
  ∧ length (written (main Sample.decimal_float Sample.poly_hash Sample.env_two)) = 1.
Proof.
  split_and!.
  - apply (report_written_once_at_end Sample.decimal_float Sample.poly_hash
             (Sample.with_mappings None Sample.env_two)). left. reflexivity.
  - apply (report_written_once_at_end Sample.decimal_float Sample.poly_hash
             (Sample.with_mappings (Some None) Sample.env_two)). right. left. reflexivity.
  - apply (report_written_once_at_end Sample.decimal_float Sample.poly_hash
             (Sample.with_batch [] Sample.env_two)). right. right. reflexivity.
  - reflexivity.
Defined.

(** C10, as stated, fails: the JSON array [[]] is valid JSON without the
    "id2ent" field; it has no [get], the [try] block catches the error and
    the run stops without a report. *)
Lemma array_mapping_aborts :
  mappings_file Sample.env_array_mapping = Some (Some (JArr []))
  ∧ synthetic_files Sample.env_array_mapping ≠ []
  ∧ main Sample.decimal_float Sample.poly_hash Sample.env_array_mapping
    = ([Print MsgUpdating; Print MsgLoadingMappings; Print MsgLoadMappingsFailed], None)
  ∧ written (main Sample.decimal_float Sample.poly_hash Sample.env_array_mapping) = [].
Proof. split_and!; [reflexivity|discriminate|reflexivity|reflexivity]. Qed.

(** C10, as amended, on a mapping file that holds the JSON object [{}]. *)
Lemma missing_id2ent_field_witness :
  id_to_name_of Sample.env_no_id2ent = Some (JObj ∅)
  ∧ ∃ d, written (main Sample.decimal_float Sample.poly_hash Sample.env_no_id2ent) = [d]
       ∧ (main Sample.decimal_float Sample.poly_hash Sample.env_no_id2ent).2 = None
       ∧ st_total_knowledge_base (db_stats d) = 0
       ∧ length (db_hypotheses d) = 2
       ∧ ∀ i hyp, db_hypotheses d !! i = Some hyp →
           ∃ h r t sc,
             batch Sample.decimal_float Sample.env_no_id2ent !! i = Some (h, r, t, sc)
             ∧ hyp_head hyp = JStr h
             ∧ hyp_tail hyp = JStr t.
Proof.
  apply (missing_id2ent_field Sample.decimal_float Sample.poly_hash
           Sample.env_no_id2ent ∅); [reflexivity|reflexivity|discriminate].
Defined.

(** ** Further facts about the triple store loader *)

Section LoaderFacts.

Variable hash : string → Z.

Lemma add_real_line_keys acc line :
  (add_real_line hash acc line).1
  = match real_key line with Some k => {[ hash k ]} ∪ acc.1 | None => acc.1 end.
Proof.
  unfold add_real_line, real_key, real_triple.
  by destruct (Str.split Str.TAB (Str.strip line)) as [|a [|b [|c [|]]]].
Qed.

Lemma fold_real_keys lines acc :
  (fold_left (add_real_line hash) lines acc).1
  = list_to_set (hash <$> corpus_keys lines) ∪ acc.1.
Proof.
  unfold corpus_keys. revert acc.
  induction lines as [|line lines IH]; intros acc; cbn [fold_left omap list_omap].
  - by rewrite fmap_nil, list_to_set_nil, union_empty_l_L.
  - rewrite IH, add_real_line_keys.
    destruct (real_key line) as [k|]; [|done].
    rewrite fmap_cons, list_to_set_cons.
    by rewrite (assoc_L (∪)), (comm_L (∪) _ {[ hash k ]}).
Qed.

Lemma scan_real_keys lines :
  (scan_real hash lines).1 = list_to_set (hash <$> corpus_keys lines).
Proof.
  unfold scan_real. rewrite fold_real_keys. cbn [fst].
  by rewrite union_empty_r_L.
Qed.

End LoaderFacts.


Section LoaderProperties.

Variable hash : string → Z.

Lemma scan_real_pair lines :
  scan_real hash lines
  = (list_to_set (hash <$> corpus_keys lines), corpus_relations lines).
Proof.
  rewrite <- scan_real_keys, <- (scan_real_relations hash).
  by destruct (scan_real hash lines).
Qed.

(** X3. The loaded reference set and relation vocabulary depend on which
    lines the reference file holds, not on their order or on how often a
    line is repeated. *)
Theorem loader_ignores_order_and_repeats (lines lines' : list string) :
  (∀ line, line ∈ lines ↔ line ∈ lines') →
  scan_real hash lines = scan_real hash lines'.
Proof.
  intros Hsame. rewrite !scan_real_pair. f_equal.
  - apply set_eq. intros z. rewrite !elem_of_list_to_set, !list_elem_of_fmap.
    unfold corpus_keys. setoid_rewrite list_elem_of_omap.
    split; intros (k & -> & line & Hin & Hk); exists k; split; try done;
      exists line; split; try done; by apply Hsame.
  - apply set_eq. intros r. unfold corpus_relations.
    rewrite !elem_of_list_to_set. setoid_rewrite list_elem_of_omap.
    split; intros (line & Hin & Hr); exists line; split; try done; by apply Hsame.
Qed.

Lemma omap_filter_is_Some {A B} (f : A → option B) (l : list A) :
  omap f (filter (λ x, is_Some (f x)) l) = omap f l.
Proof.
  induction l as [|x l IH]; [done|]. rewrite filter_cons.
  destruct (decide (is_Some (f x))) as [[y Hy]|Hn]; cbn.
  - by rewrite Hy, IH.
  - rewrite IH. destruct (f x) eqn:E; [|done]. destruct Hn. by eexists.
Qed.

Lemma omap_all_None {A B} (f : A → option B) (l : list A) :
  (∀ x, x ∈ l → f x = None) → omap f l = [].
Proof.
  induction l as [|x l IH]; [done|]. intros Hnone. cbn.
  rewrite (Hnone x) by by left. apply IH. intros y Hy. apply Hnone. by right.
Qed.

Lemma length_omap_filter {A B} (f : A → option B) (l : list A) :
  length (omap f l) = length (filter (λ x, is_Some (f x)) l).
Proof.
  induction l as [|x l IH]; [done|]. rewrite filter_cons. cbn.
  destruct (decide (is_Some (f x))) as [[y Hy]|Hn].
  - rewrite Hy. cbn. by rewrite IH.
  - destruct (f x) eqn:E; [|done]. destruct Hn. by eexists.
Qed.

Lemma relation_fields_triples (l : list string) :
  omap relation_field l
  = (λ k : string * string * string, k.1.2) <$> corpus_triples l.
Proof.
  unfold corpus_triples. rewrite list_fmap_omap.
  apply list_omap_ext, Forall2_same_length_lookup_2; [done|].
  intros i x y Hx Hy. assert (x = y) as -> by congruence.
  unfold relation_field, real_triple.
  by destruct (Str.split Str.TAB (Str.strip y)) as [|a [|b [|c [|]]]].
Qed.

Lemma corpus_keys_triples (l : list string) :
  corpus_keys l
  = (λ k : string * string * string, Str.tab_join k.1.1 k.1.2 k.2)
      <$> corpus_triples l.
Proof. unfold corpus_keys, corpus_triples, real_key. by rewrite list_fmap_omap. Qed.

Lemma scan_real_no_triples (lines : list string) :
  (∀ line, line ∈ lines → real_triple line = None) →
  scan_real hash lines = (∅, ∅).
Proof.
  intros Hnone. rewrite scan_real_pair. unfold corpus_relations.
  rewrite corpus_keys_triples, relation_fields_triples.
  assert (corpus_triples lines = []) as ->; [|done].
  by apply omap_all_None.
Qed.

(** X2. A line of the reference file that does not have exactly three fields
    is skipped: the load gives what the three-field lines alone give, and
    neither the reference set nor the vocabulary has more elements than
    there are such lines. *)
Theorem loader_skips_malformed (lines : list string) :
  scan_real hash lines
  = scan_real hash (filter (λ line, is_Some (real_triple line)) lines)
  ∧ size (scan_real hash lines).1
    ≤ length (filter (λ line, is_Some (real_triple line)) lines)
  ∧ size (scan_real hash lines).2
    ≤ length (filter (λ line, is_Some (real_triple line)) lines)
  ∧ ((∀ line, line ∈ lines → real_triple line = None) →
     scan_real hash lines = (∅, ∅)).
Proof.
  assert (corpus_triples (filter (λ line, is_Some (real_triple line)) lines)
          = corpus_triples lines) as Hf by apply omap_filter_is_Some.
  split_and!.
  - rewrite !scan_real_pair. unfold corpus_relations.
    by rewrite !corpus_keys_triples, !relation_fields_triples, Hf.
  - rewrite scan_real_pair. cbn [fst].
    etrans; [apply size_list_to_set_le|].
    rewrite corpus_keys_triples, !length_fmap. unfold corpus_triples.
    by rewrite length_omap_filter.
  - rewrite scan_real_pair. cbn [snd]. unfold corpus_relations.
    etrans; [apply size_list_to_set_le|].
    rewrite relation_fields_triples, !length_fmap. unfold corpus_triples.
    by rewrite length_omap_filter.
  - apply scan_real_no_triples.
Qed.

End LoaderProperties.


(** ** Further facts about the novelty check *)

Lemma code_hash_collision_free : collision_free code_hash.
Proof. intros a b [= E]. by apply (inj encode). Qed.

Lemma real_triple_tab_free line a b c :
  real_triple line = Some (a, b, c) →
  Str.free_of Str.TAB a = true ∧ Str.free_of Str.TAB b = true
  ∧ Str.free_of Str.TAB c = true.
Proof.
  unfold real_triple. pose proof (split_free Str.TAB (Str.strip line)) as Hf.
  destruct (Str.split Str.TAB (Str.strip line)) as [|a' [|b' [|c' [|]]]]; try done.
  intros [= -> -> ->].
  inversion Hf as [|? ? Ha Hf1]; subst. inversion Hf1 as [|? ? Hb Hf2]; subst.
  inversion Hf2 as [|? ? Hc _]; subst. done.
Qed.

Lemma length_filter_mono {A} (P Q : A → Prop) `{∀ x, Decision (P x)}
    `{∀ x, Decision (Q x)} (l : list A) :
  (∀ x, x ∈ l → P x → Q x) → length (filter P l) ≤ length (filter Q l).
Proof.
  induction l as [|x l IH]; [done|]. intros HPQ. rewrite !filter_cons.
  assert (length (filter P l) ≤ length (filter Q l)) as Hl.
  { apply IH. intros y Hy. apply HPQ. by right. }
  destruct (decide (P x)) as [HP|HP].
  - rewrite decide_True by (apply HPQ; [by left|done]). cbn. lia.
  - destruct (decide (Q x)); cbn; lia.
Qed.

Section NoveltyProperties.

Variable float : string → option pyfloat.
Variable hash : string → Z.

Lemma batch_tab_free e : Forall fields_tab_free (batch float e).
Proof.
  unfold batch. destruct (last (synthetic_files e)) as [[name lines]|]; [|constructor].
  apply read_generated_tab_free.
Qed.

Lemma loaded_available e rf :
  real_triples_file e = Some rf → memory_error rf = None →
  real_triples_set_of hash e = (scan_real hash (real_lines rf)).1
  ∧ all_relations_of hash e = (scan_real hash (real_lines rf)).2
  ∧ novelty_check_active_of hash e = true.
Proof.
  intros Hrf Hk. unfold real_triples_set_of, all_relations_of,
    novelty_check_active_of, load_real. by rewrite Hrf, Hk.
Qed.

Lemma hash_in_real_set lines (x : scored) :
  hash (joined x) ∈ (scan_real hash lines).1
  ↔ ∃ k, k ∈ corpus_triples lines
         ∧ hash (joined x) = hash (Str.tab_join k.1.1 k.1.2 k.2).
Proof.
  rewrite scan_real_keys, elem_of_list_to_set, list_elem_of_fmap, corpus_keys_triples.
  setoid_rewrite list_elem_of_fmap. split.
  - intros (s & Hs & k & -> & Hk). by exists k.
  - intros (k & Hk & Hs). eexists. split; [exact Hs|]. by exists k.
Qed.

(** X4. The exact novelty check.  With the reference file loaded, a triple of
    the batch whose head, relation and tail are those of a three-field
    line of the reference file is never flagged novel; when [hash] has no
    collisions, a triple is flagged novel exactly when no such line
    exists. *)
Theorem exact_novelty_check e rf (x : scored) :
  real_triples_file e = Some rf →
  memory_error rf = None →
  x ∈ batch float e →
  (key_of x ∈ corpus_triples (real_lines rf) →
   is_novel_flag hash (real_triples_set_of hash e)
     (novelty_check_active_of hash e) x = false)
  ∧ (collision_free hash →
     is_novel_flag hash (real_triples_set_of hash e)
       (novelty_check_active_of hash e) x = true
     ↔ key_of x ∉ corpus_triples (real_lines rf)).
Proof.
  intros Hrf Hk Hx.
  destruct (loaded_available e rf Hrf Hk) as (-> & _ & ->).
  assert (fields_tab_free x) as Hfree.
  { by eapply Forall_forall in Hx; [|apply batch_tab_free]. }
  unfold is_novel_flag, not_in_real. split.
  - intros Hin. apply bool_decide_eq_false. intros Hnot. apply Hnot.
    apply hash_in_real_set. exists (key_of x). split; [done|].
    by rewrite <- joined_of_key.
  - intros Hinj. rewrite bool_decide_eq_true, hash_in_real_set. split.
    + intros Hnot Hin. apply Hnot. exists (key_of x). split; [done|].
      by rewrite <- joined_of_key.
    + intros Hnot (k & Hk' & Hh). apply Hnot. apply Hinj in Hh.
      assert (key_of x = k) as ->; [|done].
      destruct k as [[a b] c]. unfold corpus_triples in Hk'.
      apply list_elem_of_omap in Hk' as (line & _ & Hline).
      apply real_triple_tab_free in Hline as (Ha & Hb & _).
      destruct x as [[[h r] t] sc]. cbn in *.
      destruct Hfree as (Hh' & Hr' & _).
      apply tab_join_inj in Hh as (-> & -> & ->); done.
Qed.

(** X6. More reference lines never make more triples novel. *)
Theorem more_corpus_less_novelty (lines lines' : list string) (l : list scored) :
  (∀ line, line ∈ lines → line ∈ lines') →
  novel_count hash l (scan_real hash lines').1 true
  ≤ novel_count hash l (scan_real hash lines).1 true.
Proof.
  intros Hsub. unfold novel_count. apply length_filter_mono.
  intros x _. unfold not_in_real. rewrite !bool_decide_eq_true.
  intros Hnot Hin. apply Hnot.
  apply hash_in_real_set in Hin as (k & Hk & Hh). apply hash_in_real_set.
  exists k. split; [|done]. unfold corpus_triples in *.
  apply list_elem_of_omap in Hk as (line & Hline & Hr).
  apply list_elem_of_omap. exists line. split; [by apply Hsub|done].
Qed.

End NoveltyProperties.


(** ** Further facts about the run *)

Section RunProperties.

Variable float : string → option pyfloat.
Variable hash : string → Z.

Lemma main_outcome e :
  match id_to_name_of e with
  | None => written (main float hash e) = [] ∧ (main float hash e).2 = None
  | Some idn =>
      if decide (synthetic_files e = [])
      then written (main float hash e) = [] ∧ (main float hash e).2 = None
      else match run_data float hash e idn with
           | Ok d => written (main float hash e) = [d] ∧ (main float hash e).2 = None
           | Raise x => written (main float hash e) = [] ∧ (main float hash e).2 = Some x
           end
  end.
Proof.
  unfold run_data.
  destruct (main_cases float hash e)
    as [(msgs & -> & Hc)|[(idn & msgs & x & -> & Hne & -> & ->)
                         |(idn & msgs & d & v & -> & Hne & -> & ->)]].
  - rewrite written_prints. destruct (id_to_name_of e) as [idn|] eqn:Hid; [|done].
    destruct Hc as [?|Hc]; [done|]. by rewrite decide_True.
  - rewrite decide_False by done. by rewrite written_prints.
  - rewrite decide_False by done. by rewrite written_saved.
Qed.

Lemma py_len_no_len v : py_len v = Raise TypeError ↔ no_len v.
Proof.
  unfold no_len. destruct v; cbn; split; try done; eauto.
  all: intros [?|[[? ?]|[? ?]]]; done.
Qed.

Lemma py_len_cases v : (∃ n, py_len v = Ok n) ∨ py_len v = Raise TypeError.
Proof. destruct v; cbn; eauto. Qed.

Lemma decoded_hypotheses_not_dict x l s a idn :
  ¬ is_dict idn →
  decoded_hypotheses hash (x :: l) s a idn = Raise AttributeError.
Proof.
  intros Hd. unfold decoded_hypotheses. cbn [decode_from].
  change (200 <=? 0) with false. cbv iota.
  destruct x as [[[h r] t] sc]. unfold decode_triple.
  destruct idn; try done. destruct Hd. by eexists.
Qed.

Lemma dashboard_data_raise_first l s rels a idn stamp log x :
  decoded_hypotheses hash l s a idn = Raise x →
  dashboard_data hash l s rels a idn stamp log = Raise x.
Proof.
  intros Hh. unfold dashboard_data, novelty_score, overlap_score,
    uniqueness_score, relation_diversity, schema_validity.
  by rewrite !percent_of_value, relation_freq_ok, avg_distance_ok, Hh.
Qed.

Lemma dashboard_data_raise_len l s rels a idn stamp log hyps x :
  decoded_hypotheses hash l s a idn = Ok hyps →
  py_len idn = Raise x →
  dashboard_data hash l s rels a idn stamp log = Raise x.
Proof.
  intros Hh Hn. unfold dashboard_data, novelty_score, overlap_score,
    uniqueness_score, relation_diversity, schema_validity.
  by rewrite !percent_of_value, relation_freq_ok, avg_distance_ok, Hh, Hn.
Qed.

(** What [dashboard_data] gives, by the batch and the mapping value. *)
Lemma dashboard_data_outcome l s rels a idn stamp log :
  (l ≠ [] ∧ ¬ is_dict idn
   ∧ dashboard_data hash l s rels a idn stamp log = Raise AttributeError)
  ∨ (l = [] ∧ no_len idn
     ∧ dashboard_data hash l s rels a idn stamp log = Raise TypeError)
  ∨ (∃ known hyps,
       (l = [] ∨ is_dict idn)
       ∧ py_len idn = Ok known
       ∧ decoded_hypotheses hash l s a idn = Ok hyps
       ∧ dashboard_data hash l s rels a idn stamp log
         = Ok (report_value hash l s rels a known hyps stamp log)).
Proof.
  assert (is_dict idn ∨ ¬ is_dict idn) as [[m ->]|Hd].
  { destruct idn; try (by right; intros [? ?]). left. by eexists. }
  - right. right. eexists _, _. split_and!; [by right; eexists|done| |].
    + apply decoded_hypotheses_ok.
    + apply dashboard_data_ok.
  - destruct l as [|x l].
    + destruct (py_len_cases idn) as [[n Hn]|Hn].
      * right. right. exists n, []. split_and!; [by left|done|done|].
        by apply dashboard_data_empty.
      * right. left. split_and!; [done|by apply py_len_no_len|].
        by eapply dashboard_data_raise_len.
    + left. split_and!; [done|done|].
      by apply dashboard_data_raise_first, decoded_hypotheses_not_dict.
Qed.

(** Every report a run writes is [report_value] of what the run loaded. *)
Lemma written_report e d :
  d ∈ written (main float hash e) →
  ∃ idn known hyps,
    id_to_name_of e = Some idn
    ∧ synthetic_files e ≠ []
    ∧ (batch float e = [] ∨ is_dict idn)
    ∧ py_len idn = Ok known
    ∧ decoded_hypotheses hash (batch float e) (real_triples_set_of hash e)
        (novelty_check_active_of hash e) idn = Ok hyps
    ∧ d = report_value hash (batch float e) (real_triples_set_of hash e)
            (all_relations_of hash e) (novelty_check_active_of hash e)
            known hyps (now e) (training_log e).
Proof.
  pose proof (main_outcome e) as Hm.
  destruct (id_to_name_of e) as [idn|]; [|by destruct Hm as [-> _]; intros ?%elem_of_nil].
  destruct (decide (synthetic_files e = []));
    [by destruct Hm as [-> _]; intros ?%elem_of_nil|].
  unfold run_data in Hm.
  destruct (dashboard_data_outcome (batch float e) (real_triples_set_of hash e)
              (all_relations_of hash e) (novelty_check_active_of hash e) idn
              (now e) (training_log e))
    as [(_ & _ & Hr)|[(_ & _ & Hr)|(known & hyps & Hc & Hl & Hh & Hr)]];
    rewrite Hr in Hm; destruct Hm as [-> _].
  - by intros ?%elem_of_nil.
  - by intros ?%elem_of_nil.
  - intros ->%list_elem_of_singleton. by exists idn, known, hyps.
Qed.

(** X16. A report is written only with a usable identifier map: the
    mapping file loaded, a batch file exists, the "id2ent" value is not
    [null], a boolean or a number (which have no [len]), and it is an
    object when the batch has a triple (the sampler calls its [get]); the
    report then shows the number of its keys and the size of the batch. *)
Theorem report_needs_usable_mapping e d :
  d ∈ written (main float hash e) →
  ∃ idn, id_to_name_of e = Some idn
       ∧ synthetic_files e ≠ []
       ∧ ¬ no_len idn
       ∧ (batch float e ≠ [] →
          ∃ m, idn = JObj m ∧ st_total_knowledge_base (db_stats d) = size m)
       ∧ st_total_generated (db_stats d) = length (batch float e).
Proof.
  intros (idn & known & hyps & Hid & Hne & Hc & Hl & _ & ->)%written_report.
  exists idn. split_and!; [done|done| | |done].
  - intros Hn%py_len_no_len. congruence.
  - intros Hb. destruct Hc as [?|[m ->]]; [done|].
    exists m. split; [done|]. cbn in *. congruence.
Qed.

End RunProperties.


(** ** Further facts about rounding and percentages *)

Lemma round_half_even_floor q :
  (Qfloor q ≤ round_half_even q ≤ Qfloor q + 1)%Z.
Proof.
  unfold round_half_even.
  destruct (Qcompare _ _); [destruct (Z.even _)|..]; lia.
Qed.

Lemma round_half_even_mono q q' :
  (q <= q')%Q → (round_half_even q ≤ round_half_even q')%Z.
Proof.
  intros Hq. pose proof (Qfloor_resp_le _ _ Hq) as Hf.
  pose proof (round_half_even_floor q). pose proof (round_half_even_floor q').
  destruct (decide (Qfloor q = Qfloor q')) as [E|E]; [|lia].
  unfold round_half_even. rewrite <- E.
  destruct (Qcompare_spec (q - inject_Z (Qfloor q)) (1 # 2));
    destruct (Qcompare_spec (q' - inject_Z (Qfloor q)) (1 # 2));
    try lra; try lia; destruct (Z.even (Qfloor q)); lia.
Qed.

Lemma py_round_mono (x y : Qc) n : (x ≤ y)%Qc → (py_round x n ≤ py_round y n)%Qc.
Proof.
  intros Hxy. unfold Qcle. rewrite !py_round_this.
  pose proof (scale_pos n) as Hs. set (s := inject_Z (10 ^ Z.of_nat n)) in *.
  apply Qmult_le_compat_r; [|apply Qlt_le_weak, Qinv_lt_0_compat, Hs].
  rewrite <- Zle_Qle. apply round_half_even_mono.
  apply Qmult_le_compat_r; [exact Hxy|lra].
Qed.

Lemma percent_value_nonneg x t : (0 ≤ percent_value x t)%Qc.
Proof.
  unfold percent_value. destruct (Nat.ltb_spec 0 t) as [Ht|Ht]; [|done].
  apply Qcmult_nonneg_nonneg.
  - unfold Qcdiv. apply Qcmult_nonneg_nonneg.
    + rewrite <- Qc_of_nat_0. apply Qc_of_nat_le. lia.
    + apply Qclt_le_weak, Qcinv_pos, Qc_of_nat_pos, Ht.
  - rewrite <- Qc_of_nat_0. apply Qc_of_nat_le. lia.
Qed.

Lemma percent_value_zero_inv x t : 0 < t → percent_value x t = 0%Qc → x = 0.
Proof.
  intros Ht. unfold percent_value. destruct (Nat.ltb_spec 0 t); [|lia].
  assert (Qc_of_nat t ≠ 0%Qc) as Hne by (rewrite Qc_of_nat_eq0; lia).
  assert (Qc_of_nat 100 ≠ 0%Qc) as H100 by (rewrite Qc_of_nat_eq0; lia).
  intros E. apply Qc_of_nat_eq0.
  transitivity (Qc_of_nat x / Qc_of_nat t * Qc_of_nat 100
                * (Qc_of_nat t / Qc_of_nat 100))%Qc; [by field|].
  rewrite E. ring.
Qed.

Lemma percent_value_complement x t :
  0 < t → x ≤ t →
  percent_value (t - x) t = (Qc_of_nat 100 - percent_value x t)%Qc.
Proof.
  intros Ht Hx.
  assert (percent_value (t - x) t + percent_value x t = Qc_of_nat 100)%Qc as E.
  { rewrite <- percent_value_add. replace (t - x + x) with t by lia.
    by apply percent_value_full. }
  rewrite <- E. ring.
Qed.

(** A percentage of a part of the whole stays between 0 and 100 when it
    is rounded. *)
Lemma py_round_percent_bounds x t n :
  x ≤ t →
  (0 ≤ py_round (percent_value x t) n)%Qc
  ∧ (py_round (percent_value x t) n ≤ Qc_of_nat 100)%Qc.
Proof.
  intros Hx. split.
  - rewrite <- (py_round_0 n). apply py_round_mono, percent_value_nonneg.
  - rewrite <- (py_round_nat 100 n). by apply py_round_mono, percent_value_le.
Qed.


(** ** Further facts about the report *)

Lemma length_filter_all {A} (P : A → Prop) `{∀ x, Decision (P x)} (l : list A) :
  length (filter P l) = length l ↔ Forall P l.
Proof.
  induction l as [|x l IH]; [by split; [constructor|]|].
  rewrite filter_cons. pose proof (length_filter P l) as Hle.
  destruct (decide (P x)) as [HP|HP]; cbn.
  - rewrite Forall_cons. split.
    + intros E. split; [done|]. apply IH. lia.
    + intros [_ Hl]. f_equal. by apply IH.
  - split; [lia|]. by intros [? _]%Forall_cons.
Qed.

Lemma length_filter_none {A} (P : A → Prop) `{∀ x, Decision (P x)} (l : list A) :
  length (filter P l) = 0 ↔ Forall (λ x, ¬ P x) l.
Proof.
  induction l as [|x l IH]; [by split; [constructor|]|].
  rewrite filter_cons.
  destruct (decide (P x)) as [HP|HP]; cbn.
  - split; [lia|]. by intros [? _]%Forall_cons.
  - rewrite Forall_cons, IH. split; [done|]. by intros [_ ?].
Qed.

Lemma occurrences_le r l : occurrences r l ≤ length l.
Proof. apply length_filter. Qed.

Section ReportProperties.

Variable float : string → option pyfloat.
Variable hash : string → Z.

Lemma novel_count_le l s a : novel_count hash l s a ≤ total l.
Proof. unfold novel_count, total. destruct a; [apply length_filter|done]. Qed.

Lemma unique_triples_le l : unique_triples l ≤ total l.
Proof.
  unfold unique_triples, total. rewrite <- (length_fmap joined l).
  apply size_list_to_set_le.
Qed.

Lemma valid_count_le l : valid_count l ≤ total l.
Proof. apply length_filter. Qed.

(** X10. The percentages of a report stay in their range: novelty, overlap,
    uniqueness, schema validity and every share of the relation-frequency
    table are between 0 and 100, and relation diversity is not negative. *)
Theorem report_percentages_in_range e d :
  d ∈ written (main float hash e) →
  ((0 ≤ st_novelty (db_stats d))%Qc ∧ (st_novelty (db_stats d) ≤ Qc_of_nat 100)%Qc)
  ∧ ((0 ≤ st_train_overlap (db_stats d))%Qc
     ∧ (st_train_overlap (db_stats d) ≤ Qc_of_nat 100)%Qc)
  ∧ ((0 ≤ st_uniqueness (db_stats d))%Qc
     ∧ (st_uniqueness (db_stats d) ≤ Qc_of_nat 100)%Qc)
  ∧ ((0 ≤ st_schema_validity (db_stats d))%Qc
     ∧ (st_schema_validity (db_stats d) ≤ Qc_of_nat 100)%Qc)
  ∧ (0 ≤ st_relation_diversity (db_stats d))%Qc
  ∧ Forall (λ f, (0 ≤ rf_percent f)%Qc ∧ (rf_percent f ≤ Qc_of_nat 100)%Qc)
      (db_relation_freq d).
Proof.
  intros (idn & known & hyps & _ & _ & _ & _ & _ & ->)%written_report.
  cbn [db_stats report_value st_novelty st_train_overlap st_uniqueness
       st_schema_validity st_relation_diversity db_relation_freq].
  split_and!.
  1, 2: apply py_round_percent_bounds, novel_count_le.
  1, 2: apply py_round_percent_bounds; unfold overlap_count; lia.
  1, 2: apply py_round_percent_bounds, unique_triples_le.
  1, 2: apply py_round_percent_bounds, valid_count_le.
  - rewrite <- (py_round_0 2). apply py_round_mono, percent_value_nonneg.
  - apply Forall_forall. intros f Hf. rewrite sort_by_relation_perm in Hf.
    apply list_elem_of_fmap in Hf as ([k n] & -> & Hkn).
    apply Counter_elem in Hkn as [-> _]. cbn.
    apply py_round_percent_bounds. unfold total.
    rewrite <- (length_fmap relation_of). apply occurrences_le.
Qed.

(** X9. For a batch with a triple, the reported novelty and overlap add
    up to 100 up to the rounding of each to two places: their sum is less
    than two hundredths away from 100. *)
Theorem novelty_plus_overlap e d :
  d ∈ written (main float hash e) →
  batch float e ≠ [] →
  (Qc_of_nat 100 - cent - cent
   < st_novelty (db_stats d) + st_train_overlap (db_stats d))%Qc
  ∧ (st_novelty (db_stats d) + st_train_overlap (db_stats d)
     < Qc_of_nat 100 + cent + cent)%Qc.
Proof.
  intros (idn & known & hyps & _ & _ & _ & _ & _ & ->)%written_report Hb.
  cbn [db_stats report_value st_novelty st_train_overlap].
  set (l := batch float e) in *.
  assert (0 < total l) by (unfold total; destruct l; [done|cbn; lia]).
  pose proof (novel_count_le l (real_triples_set_of hash e)
                (novelty_check_active_of hash e)) as Hle.
  unfold overlap_count.
  set (pn := percent_value (novel_count hash l (real_triples_set_of hash e)
                              (novelty_check_active_of hash e)) (total l)).
  set (po := percent_value (total l - novel_count hash l (real_triples_set_of hash e)
                                        (novelty_check_active_of hash e)) (total l)).
  assert (po = (Qc_of_nat 100 - pn)%Qc) as Hpo
    by by apply percent_value_complement.
  pose proof (py_round_within_cent pn) as Hn.
  pose proof (py_round_within_cent po) as Ho.
  set (rn := py_round pn 2) in *. set (ro := py_round po 2) in *.
  clearbody rn ro po pn. subst po. destruct Hn, Ho.
  qc_to_q. split; lra.
Qed.

End ReportProperties.


Section SampleAndMetrics.

Variable float : string → option pyfloat.
Variable hash : string → Z.

(** X11. When the whole batch fits the sample (at most 200 triples), the
    sample has one hypothesis per triple and the reported novelty is, up
    to the rounding to two places, the share of the hypotheses flagged
    novel. *)
Theorem novelty_from_sample e d :
  d ∈ written (main float hash e) →
  length (batch float e) ≤ 200 →
  length (db_hypotheses d) = st_total_generated (db_stats d)
  ∧ within_cent (st_novelty (db_stats d))
      (percent_value
         (length (filter (λ h, hyp_is_novel h = true) (db_hypotheses d)))
         (st_total_generated (db_stats d))).
Proof.
  intros (idn & known & hyps & _ & _ & Hc & _ & Hh & ->)%written_report Hlen.
  cbn [db_stats report_value st_novelty st_total_generated db_hypotheses].
  set (l := batch float e) in *.
  set (s := real_triples_set_of hash e) in *.
  set (a := novelty_check_active_of hash e) in *.
  assert (length hyps = total l
          ∧ length (filter (λ h, hyp_is_novel h = true) hyps) = novel_count hash l s a)
    as [E1 E2]; [|split; [done|rewrite E2; apply py_round_within_cent]].
  destruct Hc as [Hl|[m ->]].
  - rewrite Hl in *. injection Hh as <-. split; [done|].
    unfold novel_count, total. by destruct a.
  - rewrite decoded_hypotheses_ok in Hh. injection Hh as <-.
    rewrite take_ge by done. split; [by rewrite length_fmap|].
    assert (length (filter (λ h, hyp_is_novel h = true)
                      (decode_value m (is_novel_flag hash s a) <$> l))
            = length (filter (λ x, is_novel_flag hash s a x = true) l)) as ->.
    { clear. induction l as [|[[[h r] t] sc] l IH]; [done|].
      rewrite fmap_cons, !filter_cons. cbn [decode_value hyp_is_novel].
      destruct (decide (is_novel_flag hash s a (h, r, t, sc) = true));
        cbn [length]; by rewrite IH. }
    unfold novel_count, is_novel_flag. destruct a; [done|].
    unfold total. apply length_filter_all. by apply Forall_forall.
Qed.

(** X12. Relation diversity is at most 100 when the batch uses no more
    distinct relations than the vocabulary holds, in particular when
    every relation of the batch occurs in the loaded reference file. *)
Theorem relation_diversity_at_most_100 e d :
  d ∈ written (main float hash e) →
  (∀ x, x ∈ batch float e → relation_of x ∈ all_relations_of hash e) →
  (st_relation_diversity (db_stats d) ≤ Qc_of_nat 100)%Qc.
Proof.
  intros (idn & known & hyps & _ & _ & _ & _ & _ & ->)%written_report Hrel.
  cbn [db_stats report_value st_relation_diversity].
  apply py_round_percent_bounds.
  unfold used_relations, rel_counts. rewrite Counter_length.
  set (rels := all_relations_of hash e) in *.
  assert (list_to_set (relation_of <$> batch float e) ⊆ rels) as Hsub.
  { intros r. rewrite elem_of_list_to_set, list_elem_of_fmap.
    intros (x & -> & Hx). by apply Hrel. }
  apply subseteq_size in Hsub. unfold total_relations.
  destruct (decide (rels ≠ ∅)) as [_|Hempty]; [done|].
  assert (rels = ∅) as E by (by destruct (decide (rels = ∅))).
  rewrite E, size_empty in Hsub. lia.
Qed.

(** X13. The extremes of schema validity on a batch with a triple: it is 100
    exactly when every triple passes its rule, and 0 exactly when none
    does. *)
Theorem schema_validity_extremes (l : list scored) :
  l ≠ [] →
  ∃ q, schema_validity l = Ok q
     ∧ (q = Qc_of_nat 100 ↔ Forall valid_triple l)
     ∧ (q = 0%Qc ↔ Forall (λ x, ¬ valid_triple x) l).
Proof.
  intros Hl. assert (0 < total l) by (unfold total; destruct l; [done|cbn; lia]).
  assert (valid_count l = total l ↔ Forall valid_triple l) as Hall
    by apply length_filter_all.
  assert (valid_count l = 0 ↔ Forall (λ x, ¬ valid_triple x) l) as Hnone
    by apply length_filter_none.
  exists (percent_value (valid_count l) (total l)). split_and!.
  - apply percent_of_value.
  - rewrite <- Hall. split.
    + by apply percent_value_full_inv.
    + intros ->. by apply percent_value_full.
  - rewrite <- Hnone. split.
    + by apply percent_value_zero_inv.
    + intros ->. apply percent_value_none.
Qed.

End SampleAndMetrics.

(** ** Further facts: the order of the batch *)

Lemma occurrences_perm r l l' : l ≡ₚ l' → occurrences r l = occurrences r l'.
Proof. intros Hp. unfold occurrences. by rewrite Hp. Qed.

Lemma Counter_elem_iff l k n :
  (k, n) ∈ Counter l ↔ k ∈ l ∧ n = occurrences k l.
Proof.
  split.
  - intros Hin. by apply Counter_elem in Hin as [-> ?].
  - intros [Hk ->]. apply Counter_keys in Hk.
    apply list_elem_of_fmap in Hk as ([k' n'] & -> & Hin). cbn.
    by pose proof (Counter_elem _ _ _ Hin) as [<- _].
Qed.

Lemma Counter_NoDup l : NoDup (Counter l).
Proof. eapply NoDup_fmap_1, Counter_keys_NoDup. Qed.

Lemma Counter_perm l l' : l ≡ₚ l' → Counter l ≡ₚ Counter l'.
Proof.
  intros Hp. apply NoDup_Permutation; [apply Counter_NoDup..|].
  intros [k n]. rewrite !Counter_elem_iff, (occurrences_perm k l l' Hp).
  by rewrite Hp.
Qed.

Lemma relation_table_perm (l l' : list scored) :
  l ≡ₚ l' →
  sort_by_relation (freq_value (total l) <$> rel_counts l)
  = sort_by_relation (freq_value (total l') <$> rel_counts l').
Proof.
  intros Hp. assert (total l' = total l) as -> by (unfold total; by rewrite Hp).
  assert (relation_of <$> l ≡ₚ relation_of <$> l') as Hr by by rewrite Hp.
  apply (StronglySorted_unique_strong le_by_relation);
    [|apply sort_by_relation_sorted..|].
  - intros x1 x2 H1 H2 H12 H21.
    rewrite sort_by_relation_perm in H1, H2.
    apply list_elem_of_fmap in H1 as ([k1 n1] & -> & H1).
    apply list_elem_of_fmap in H2 as ([k2 n2] & -> & H2).
    apply Counter_elem_iff in H1 as [_ ->]. apply Counter_elem_iff in H2 as [_ ->].
    unfold le_by_relation in *. cbn in H12, H21.
    assert (k1 = k2) as -> by by apply (anti_symm String.le).
    by rewrite (occurrences_perm k2 _ _ Hr).
  - rewrite !sort_by_relation_perm. unfold rel_counts.
    by rewrite (Counter_perm _ _ Hr).
Qed.

Section BatchOrder.

Variable hash : string → Z.

(** X15. The statistics computed from counts and the relation-frequency
    table do not depend on the order of the triples in the batch: when
    [dashboard_data] succeeds on a batch it succeeds on every reordering
    of it, with the same novelty, overlap, uniqueness, relation diversity,
    schema validity, totals, table, time stamp and training status.  The
    sample of hypotheses follows the order, and the average confidence is
    left out: it is a floating-point sum in the order of the batch. *)
Theorem stats_ignore_batch_order (l l' : list scored) s rels a idn stamp log d :
  l ≡ₚ l' →
  dashboard_data hash l s rels a idn stamp log = Ok d →
  ∃ d', dashboard_data hash l' s rels a idn stamp log = Ok d'
      ∧ count_stats (db_stats d') = count_stats (db_stats d)
      ∧ db_relation_freq d' = db_relation_freq d
      ∧ db_training_status d' = db_training_status d
      ∧ last_updated d' = last_updated d.
Proof.
  intros Hp Hd.
  destruct (dashboard_data_outcome hash l s rels a idn stamp log)
    as [(_ & _ & Hr)|[(_ & _ & Hr)|(known & hyps & Hc & Hl & _ & Hr)]];
    [congruence..|].
  rewrite Hr in Hd. injection Hd as <-.
  destruct (dashboard_data_outcome hash l' s rels a idn stamp log)
    as [(Hne & Hnd & _)|[(_ & Hnl & _)|(known' & hyps' & _ & Hl' & _ & Hr')]].
  - destruct Hc as [->|?]; [|done]. by apply Permutation_nil in Hp.
  - apply py_len_no_len in Hnl. congruence.
  - assert (known' = known) as -> by congruence.
    eexists. split; [exact Hr'|]. unfold count_stats. cbn.
    split_and!; [|by symmetry; apply relation_table_perm|done|done].
    assert (total l' = total l) as Ht by (unfold total; by rewrite Hp).
    assert (novel_count hash l' s a = novel_count hash l s a) as Hn.
    { unfold novel_count. rewrite Ht. destruct a; [|done]. by rewrite Hp. }
    assert (unique_triples l' = unique_triples l) as Hu.
    { unfold unique_triples. f_equal. apply set_eq. intros k.
      rewrite !elem_of_list_to_set. by rewrite Hp. }
    assert (used_relations l' = used_relations l) as Hused.
    { unfold used_relations, rel_counts. rewrite !Counter_length. f_equal.
      apply set_eq. intros k. rewrite !elem_of_list_to_set. by rewrite Hp. }
    assert (valid_count l' = valid_count l) as Hv.
    { unfold valid_count. by rewrite Hp. }
    unfold overlap_count.
    by rewrite Ht, Hn, Hu, Hused, Hv.
Qed.

End BatchOrder.


(** ** Further facts: the reference file and the report *)

Section CorpusAndReport.

Variable float : string → option pyfloat.
Variable hash : string → Z.

Lemma novel_count_empty_set l a : novel_count hash l ∅ a = total l.
Proof.
  unfold novel_count, total. destruct a; [|done].
  apply length_filter_all, Forall_forall. intros x _.
  unfold not_in_real. apply bool_decide_eq_true. apply not_elem_of_empty.
Qed.

Lemma decode_from_empty_set idn i l :
  decode_from hash ∅ true idn i l = decode_from hash ∅ false idn i l.
Proof.
  revert i. induction l as [|[[[h r] t] sc] l IH]; intros i; [done|].
  cbn [decode_from]. rewrite IH.
  assert (decode_triple hash ∅ true idn (h, r, t, sc)
          = decode_triple hash ∅ false idn (h, r, t, sc)) as ->; [|done].
  unfold decode_triple, is_novel_flag, not_in_real.
  rewrite bool_decide_eq_true_2; [done|apply not_elem_of_empty].
Qed.

Lemma dashboard_data_empty_set l rels idn stamp log :
  dashboard_data hash l ∅ rels true idn stamp log
  = dashboard_data hash l ∅ rels false idn stamp log.
Proof.
  unfold dashboard_data, novelty_score, overlap_score, overlap_count,
    decoded_hypotheses.
  by rewrite !novel_count_empty_set, decode_from_empty_set.
Qed.

(** X7. A reference file without a three-field line gives the report of a run
    without a reference file, although the novelty check is on in one run
    and off in the other. *)
Theorem corpus_without_triples_as_missing e rf :
  real_triples_file e = Some rf →
  memory_error rf = None →
  (∀ line, line ∈ real_lines rf → real_triple line = None) →
  written (main float hash e)
  = written (main float hash (Sample.with_real None e))
  ∧ novelty_check_active_of hash e = true
  ∧ novelty_check_active_of hash (Sample.with_real None e) = false.
Proof.
  intros Hrf Hk Hnone.
  destruct (loaded_available hash e rf Hrf Hk) as (Hs & Hr & Ha).
  rewrite (scan_real_no_triples hash _ Hnone) in Hs, Hr. cbn in Hs, Hr.
  split_and!; [|done|done].
  pose proof (main_outcome float hash e) as H1.
  pose proof (main_outcome float hash (Sample.with_real None e)) as H2.
  change (id_to_name_of (Sample.with_real None e)) with (id_to_name_of e) in H2.
  change (synthetic_files (Sample.with_real None e))
    with (synthetic_files e) in H2.
  destruct (id_to_name_of e) as [idn|];
    [|by destruct H1 as [-> _], H2 as [-> _]].
  destruct (decide (synthetic_files e = []));
    [by destruct H1 as [-> _], H2 as [-> _]|].
  assert (run_data float hash (Sample.with_real None e) idn
          = run_data float hash e idn) as E.
  { unfold run_data. rewrite Hs, Hr, Ha. symmetry. apply dashboard_data_empty_set. }
  rewrite E in H2.
  destruct (run_data float hash e idn); by destruct H1 as [-> _], H2 as [-> _].
Qed.

Lemma collision_free_on_Forall (keys : list string) :
  Forall (λ a, Forall (λ b, hash a = hash b → a = b) keys) keys →
  collision_free_on hash keys.
Proof.
  intros H a b Ha Hb. rewrite Forall_forall in H.
  specialize (H a Ha). rewrite Forall_forall in H. by apply H.
Qed.

Lemma not_in_real_corpus lines (l : list scored) (x : scored) :
  x ∈ l → fields_tab_free x →
  collision_free_on hash (corpus_keys lines ++ (joined <$> l)) →
  not_in_real hash (scan_real hash lines).1 x = true
  ↔ key_of x ∉ corpus_triples lines.
Proof.
  intros Hx Hfree Hinj. unfold not_in_real.
  rewrite bool_decide_eq_true, hash_in_real_set. split.
  - intros Hnot Hin. apply Hnot. exists (key_of x). split; [done|].
    by rewrite <- joined_of_key.
  - intros Hnot (k & Hk' & Hh). apply Hnot.
    apply Hinj in Hh.
    + assert (key_of x = k) as ->; [|done].
      destruct k as [[a b] c]. unfold corpus_triples in Hk'.
      apply list_elem_of_omap in Hk' as (line & _ & Hline).
      apply real_triple_tab_free in Hline as (Ha & Hb & _).
      destruct x as [[[h r] t] sc]. cbn in *.
      destruct Hfree as (Hh' & Hr' & _).
      apply tab_join_inj in Hh as (-> & -> & ->); done.
    + apply elem_of_app. right. apply list_elem_of_fmap. by exists x.
    + apply elem_of_app. left. rewrite corpus_keys_triples.
      apply list_elem_of_fmap. by exists k.
Qed.

(** X5. With the reference file loaded and a hash that does not collide
    on the keys of the reference file and of the batch, the triples counted
    novel are those of the batch that no three-field line of the reference
    file holds, and the reported novelty is their share of the batch up to
    the rounding to two places. *)
Theorem novelty_counts_absent_triples e rf d :
  real_triples_file e = Some rf →
  memory_error rf = None →
  collision_free_on hash
    (corpus_keys (real_lines rf) ++ (joined <$> batch float e)) →
  d ∈ written (main float hash e) →
  novel_count hash (batch float e) (real_triples_set_of hash e)
    (novelty_check_active_of hash e)
  = length (filter (λ x, key_of x ∉ corpus_triples (real_lines rf)) (batch float e))
  ∧ within_cent (st_novelty (db_stats d))
      (percent_value
         (length (filter (λ x, key_of x ∉ corpus_triples (real_lines rf))
                    (batch float e)))
         (length (batch float e))).
Proof.
  intros Hrf Hk Hinj (idn & known & hyps & _ & _ & _ & _ & _ & ->)%written_report.
  cbn [db_stats report_value st_novelty].
  destruct (loaded_available hash e rf Hrf Hk) as (-> & _ & ->).
  assert (novel_count hash (batch float e) (scan_real hash (real_lines rf)).1 true
          = length (filter (λ x, key_of x ∉ corpus_triples (real_lines rf))
                      (batch float e))) as E.
  { unfold novel_count.
    pose proof (batch_tab_free float e) as Hfree.
    rewrite Forall_forall in Hfree.
    apply Nat.le_antisymm; apply length_filter_mono; intros x Hx;
      by rewrite (not_in_real_corpus _ _ x Hx (Hfree x Hx) Hinj). }
  split; [exact E|]. rewrite <- E. apply py_round_within_cent.
Qed.

(** X8. A load of the reference file that runs out of memory after [k]
    lines switches the novelty check off and empties the reference set,
    and keeps the relations of the lines read so far as the vocabulary:
    when there is one, the reported relation diversity is the share of the
    relations of the batch over their number, up to the rounding to two
    places, and not over the default. *)
Theorem memory_error_vocabulary e rf k d :
  real_triples_file e = Some rf →
  memory_error rf = Some k →
  d ∈ written (main float hash e) →
  novelty_check_active_of hash e = false
  ∧ real_triples_set_of hash e = ∅
  ∧ all_relations_of hash e = corpus_relations (take k (real_lines rf))
  ∧ (corpus_relations (take k (real_lines rf)) ≠ ∅ →
     within_cent (st_relation_diversity (db_stats d))
       (percent_value
          (size (list_to_set (relation_of <$> batch float e) : gset string))
          (size (corpus_relations (take k (real_lines rf)))))).
Proof.
  intros Hrf Hk (idn & known & hyps & _ & _ & _ & _ & _ & ->)%written_report.
  assert (all_relations_of hash e = corpus_relations (take k (real_lines rf))) as Hr.
  { unfold all_relations_of, load_real. rewrite Hrf, Hk. cbn.
    apply scan_real_relations. }
  split_and!.
  - unfold novelty_check_active_of, load_real. by rewrite Hrf, Hk.
  - unfold real_triples_set_of, load_real. by rewrite Hrf, Hk.
  - done.
  - intros Hne. cbn [db_stats report_value st_relation_diversity].
    unfold used_relations, rel_counts. rewrite Counter_length, Hr.
    unfold total_relations. rewrite decide_True by done.
    apply py_round_within_cent.
Qed.

Lemma fold_float_add_nan (l : list scored) :
  fold_left (λ acc x, float_add acc (score_of x)) l NaN = NaN.
Proof. induction l as [|x l IH]; [done|]. cbn. exact IH. Qed.

Lemma sum_scores_nan (l : list scored) :
  (∃ x, x ∈ l ∧ score_of x = NaN) → sum_scores l = NaN.
Proof.
  unfold sum_scores. generalize (Finite 0). induction l as [|y l IH]; intros acc.
  - by intros (x & ?%elem_of_nil & _).
  - intros (x & [->|Hx]%elem_of_cons & Hs); cbn [fold_left].
    + rewrite Hs. assert (float_add acc NaN = NaN) as -> by by destruct acc.
      apply fold_float_add_nan.
    + apply IH. by exists x.
Qed.

(** X14. A score that is not a number makes the reported average
    confidence not a number: the report is written all the same, with NaN
    as its average. *)
Theorem nan_score_nan_average e d :
  d ∈ written (main float hash e) →
  (∃ x, x ∈ batch float e ∧ score_of x = NaN) →
  st_avg_distance (db_stats d) = NaN.
Proof.
  intros (idn & known & hyps & _ & _ & _ & _ & _ & ->)%written_report Hnan.
  cbn [db_stats report_value st_avg_distance].
  assert (0 < length (batch float e)) as Hpos.
  { destruct Hnan as (x & Hx & _). destruct (batch float e); [by apply elem_of_nil in Hx|].
    cbn. lia. }
  apply Nat.ltb_lt in Hpos. rewrite Hpos.
  by rewrite (sum_scores_nan _ Hnan).
Qed.

End CorpusAndReport.


(** ** Further facts: the lines of the batch file *)

Lemma lstrip_all_space s : Str.all_space s = true → Str.lstrip s = "".
Proof.
  induction s as [|c s IH]; [done|]. cbn.
  intros [Hc Hs]%andb_true_iff. rewrite Hc. auto.
Qed.

Lemma rstrip_all_space s : Str.all_space s = true → Str.rstrip s = "".
Proof.
  induction s as [|c s IH]; [done|]. cbn.
  intros [Hc Hs]%andb_true_iff. by rewrite IH, Hc.
Qed.

Lemma lstrip_pad pre s : Str.all_space pre = true → Str.lstrip (pre +:+ s) = Str.lstrip s.
Proof.
  induction pre as [|c pre IH]; [done|]. cbn [Str.all_space].
  intros [Hc Hs]%andb_true_iff.
  change (String c pre +:+ s) with (String c (pre +:+ s)).
  cbn [Str.lstrip]. rewrite Hc. auto.
Qed.

Lemma rstrip_pad s post : Str.all_space post = true → Str.rstrip (s +:+ post) = Str.rstrip s.
Proof.
  intros Hpost. induction s as [|c s IH].
  - change ("" +:+ post) with post. by rewrite rstrip_all_space.
  - change (String c s +:+ post) with (String c (s +:+ post)).
    cbn [Str.rstrip]. by rewrite IH.
Qed.

Lemma strip_pad pre s post :
  Str.all_space pre = true → Str.all_space post = true →
  Str.strip (pre +:+ s +:+ post) = Str.strip s.
Proof.
  intros Hpre Hpost. unfold Str.strip. rewrite lstrip_pad by done.
  induction s as [|c s IH].
  - change ("" +:+ post) with post. by rewrite lstrip_all_space.
  - change (String c s +:+ post) with (String c (s +:+ post)).
    cbn [Str.lstrip]. destruct (Str.isspace c); [done|].
    by rewrite <- (rstrip_pad (String c s) post Hpost).
Qed.

Lemma strip_trimmed s : Str.trimmed s → Str.strip s = s.
Proof. intros [Hl Hr]. unfold Str.strip. by rewrite Hl. Qed.

Lemma split_join sep parts :
  parts ≠ [] → Forall (λ p, Str.free_of sep p = true) parts →
  Str.split sep (Str.join sep parts) = parts.
Proof.
  induction parts as [|p ps IH]; [done|]. intros _ Hfree.
  apply Forall_cons in Hfree as [Hp Hps].
  destruct ps as [|q ps].
  - cbn [Str.join]. by apply split_free_single.
  - change (Str.join sep (p :: q :: ps))
      with (p +:+ String sep (Str.join sep (q :: ps))).
    rewrite split_free_app by done. by rewrite IH.
Qed.

Section ReaderProperties.

Variable float : string → option pyfloat.

(** X1. A line of ASCII characters of the batch file is read by its
    tab-separated fields, after the white space at its two ends, tabs
    included, is dropped: with four fields or more and a fourth that
    [float] accepts it gives the first three with that score, further
    fields are not looked at, and any other line gives nothing. *)
Theorem reader_line_fields (parts : list string) (pre post : string) :
  ascii_text (pre +:+ Str.join Str.TAB parts +:+ post) →
  parts ≠ [] →
  Forall (λ p, Str.free_of Str.TAB p = true) parts →
  Str.trimmed (Str.join Str.TAB parts) →
  Str.all_space pre = true →
  Str.all_space post = true →
  parse_line float (pre +:+ Str.join Str.TAB parts +:+ post)
  = match parts with
    | h :: r :: t :: s :: _ => (λ score, (h, r, t, score)) <$> float s
    | _ => None
    end.
Proof.
  intros _ Hne Hfree Htrim Hpre Hpost. unfold parse_line.
  rewrite strip_pad, strip_trimmed, split_join by done.
  by destruct parts as [|h [|r [|t [|s rest]]]].
Qed.

End ReaderProperties.


(** ** The further properties on concrete runs *)

(** X3: the same line twice and another order of the lines give the same
    reference set and vocabulary. *)
Lemma loader_ignores_order_and_repeats_witness :
  scan_real Sample.poly_hash
    [Sample.row ["e1"; "r1"; "e2"]; Sample.row ["e2"; "r2"; "e3"];
     Sample.row ["e1"; "r1"; "e2"]]
  = scan_real Sample.poly_hash
      [Sample.row ["e2"; "r2"; "e3"]; Sample.row ["e1"; "r1"; "e2"]].
Proof.
  apply (loader_ignores_order_and_repeats Sample.poly_hash).
  intros line. rewrite !elem_of_cons, !elem_of_nil. tauto.
Defined.

(** X1: a line with a tab in front, a fifth field and its newline. *)
Lemma reader_line_fields_witness :
  parse_line Sample.decimal_float
    (Sample.TABS +:+ Str.join Str.TAB ["e1"; "r1"; "e2"; "0.9"; "more"] +:+ Sample.NL)
  = (λ score, ("e1", "r1", "e2", score)) <$> Sample.decimal_float "0.9".
Proof.
  apply (reader_line_fields Sample.decimal_float
           ["e1"; "r1"; "e2"; "0.9"; "more"] Sample.TABS Sample.NL).
  - apply (bool_decide_unpack _). vm_compute. exact I.
  - discriminate.
  - repeat constructor.
  - split; reflexivity.
  - reflexivity.
  - reflexivity.
Defined.

(** X4: the two-line batch against its reference file, under a hash without
    collisions: a triple is flagged novel exactly when the file does not
    hold it. *)
Lemma exact_novelty_check_witness :
  Forall (λ x,
    is_novel_flag code_hash (real_triples_set_of code_hash Sample.env_two)
      (novelty_check_active_of code_hash Sample.env_two) x = true
    ↔ key_of x ∉ corpus_triples [Sample.row ["e1"; "r1"; "e2"]])
    (batch Sample.decimal_float Sample.env_two).
Proof.
  apply Forall_forall. intros x Hx.
  apply (exact_novelty_check Sample.decimal_float code_hash Sample.env_two
           {| real_lines := [Sample.row ["e1"; "r1"; "e2"]]; memory_error := None |}
           x eq_refl eq_refl Hx).
  apply code_hash_collision_free.
Defined.

(** X6: the two-line batch against no reference line and against one. *)
Lemma more_corpus_less_novelty_witness :
  novel_count Sample.poly_hash (batch Sample.decimal_float Sample.env_two)
    (scan_real Sample.poly_hash [Sample.row ["e1"; "r1"; "e2"]]).1 true
  ≤ novel_count Sample.poly_hash (batch Sample.decimal_float Sample.env_two)
      (scan_real Sample.poly_hash []).1 true.
Proof.
  apply (more_corpus_less_novelty Sample.poly_hash [] [Sample.row ["e1"; "r1"; "e2"]]).
  intros line Hin. inversion Hin.
Defined.

(** X10: the report of the two-line batch. *)
Lemma report_percentages_in_range_witness :
  ∃ d, written (main Sample.decimal_float Sample.poly_hash Sample.env_two) = [d]
     ∧ ((0 ≤ st_novelty (db_stats d))%Qc ∧ (st_novelty (db_stats d) ≤ Qc_of_nat 100)%Qc)
     ∧ ((0 ≤ st_train_overlap (db_stats d))%Qc
        ∧ (st_train_overlap (db_stats d) ≤ Qc_of_nat 100)%Qc)
     ∧ ((0 ≤ st_uniqueness (db_stats d))%Qc
        ∧ (st_uniqueness (db_stats d) ≤ Qc_of_nat 100)%Qc)
     ∧ ((0 ≤ st_schema_validity (db_stats d))%Qc
        ∧ (st_schema_validity (db_stats d) ≤ Qc_of_nat 100)%Qc)
     ∧ (0 ≤ st_relation_diversity (db_stats d))%Qc
     ∧ Forall (λ f, (0 ≤ rf_percent f)%Qc ∧ (rf_percent f ≤ Qc_of_nat 100)%Qc)
         (db_relation_freq d).
Proof.
  eexists. split; [reflexivity|].
  apply (report_percentages_in_range Sample.decimal_float Sample.poly_hash
           Sample.env_two).
  left.
Defined.

(** X9: the two-line batch: 50 + 50. *)
Lemma novelty_plus_overlap_witness :
  ∃ d, written (main Sample.decimal_float Sample.poly_hash Sample.env_two) = [d]
     ∧ (Qc_of_nat 100 - cent - cent
        < st_novelty (db_stats d) + st_train_overlap (db_stats d))%Qc
     ∧ (st_novelty (db_stats d) + st_train_overlap (db_stats d)
        < Qc_of_nat 100 + cent + cent)%Qc.
Proof.
  eexists. split; [reflexivity|].
  apply (novelty_plus_overlap Sample.decimal_float Sample.poly_hash Sample.env_two).
  - left.
  - discriminate.
Defined.

(** X11: the two-line batch: two hypotheses, one of them flagged novel. *)
Lemma novelty_from_sample_witness :
  ∃ d, written (main Sample.decimal_float Sample.poly_hash Sample.env_two) = [d]
     ∧ length (db_hypotheses d) = st_total_generated (db_stats d)
     ∧ within_cent (st_novelty (db_stats d))
         (percent_value
            (length (filter (λ h, hyp_is_novel h = true) (db_hypotheses d)))
            (st_total_generated (db_stats d))).
Proof.
  eexists. split; [reflexivity|].
  apply (novelty_from_sample Sample.decimal_float Sample.poly_hash Sample.env_two).
  - left.
  - vm_compute. lia.
Defined.

(** X12: the two-line batch against a reference file that holds both of its
    relations. *)
Lemma relation_diversity_at_most_100_witness :
  ∃ d, written (main Sample.decimal_float Sample.poly_hash
                  (Sample.with_real
                     (Some {| real_lines := [Sample.row ["e1"; "r1"; "e2"];
                                             Sample.row ["e2"; "r2"; "e1"]];
                              memory_error := None |}) Sample.env_two)) = [d]
     ∧ (st_relation_diversity (db_stats d) ≤ Qc_of_nat 100)%Qc.
Proof.
  eexists. split; [reflexivity|].
  apply (relation_diversity_at_most_100 Sample.decimal_float Sample.poly_hash
           (Sample.with_real
              (Some {| real_lines := [Sample.row ["e1"; "r1"; "e2"];
                                      Sample.row ["e2"; "r2"; "e1"]];
                       memory_error := None |}) Sample.env_two)).
  - left.
  - apply Forall_forall. apply (bool_decide_unpack _). vm_compute. exact I.
Defined.

(** X13: one triple with a year that is a number. *)
Lemma schema_validity_extremes_witness :
  ∃ q, schema_validity [("p1", "dblp:publishedInYear", "2021", Finite (Qc_of_nat 1))]
       = Ok q
     ∧ (q = Qc_of_nat 100
        ↔ Forall valid_triple
            [("p1", "dblp:publishedInYear", "2021", Finite (Qc_of_nat 1))])
     ∧ (q = 0%Qc
        ↔ Forall (λ x, ¬ valid_triple x)
            [("p1", "dblp:publishedInYear", "2021", Finite (Qc_of_nat 1))]).
Proof.
  apply (schema_validity_extremes
           [("p1", "dblp:publishedInYear", "2021", Finite (Qc_of_nat 1))]).
  discriminate.
Defined.

(** X15: the two-line batch and the same two lines the other way round. *)
Lemma stats_ignore_batch_order_witness :
  ∃ d d',
    dashboard_data Sample.poly_hash (batch Sample.decimal_float Sample.env_two)
      (real_triples_set_of Sample.poly_hash Sample.env_two)
      (all_relations_of Sample.poly_hash Sample.env_two) true (JObj ∅)
      "2026-01-01 00:00 UTC" None = Ok d
    ∧ dashboard_data Sample.poly_hash
        (reverse (batch Sample.decimal_float Sample.env_two))
        (real_triples_set_of Sample.poly_hash Sample.env_two)
        (all_relations_of Sample.poly_hash Sample.env_two) true (JObj ∅)
        "2026-01-01 00:00 UTC" None = Ok d'
    ∧ count_stats (db_stats d') = count_stats (db_stats d)
    ∧ db_relation_freq d' = db_relation_freq d
    ∧ db_training_status d' = db_training_status d
    ∧ last_updated d' = last_updated d.
Proof.
  eexists.
  destruct (stats_ignore_batch_order Sample.poly_hash
              (batch Sample.decimal_float Sample.env_two)
              (reverse (batch Sample.decimal_float Sample.env_two))
              (real_triples_set_of Sample.poly_hash Sample.env_two)
              (all_relations_of Sample.poly_hash Sample.env_two) true (JObj ∅)
              "2026-01-01 00:00 UTC" None _
              (symmetry (reverse_Permutation _)) eq_refl)
    as (d' & Hd' & Hrest).
  exists d'. split; [reflexivity|]. split; [exact Hd'|exact Hrest].
Defined.

(** X7: a reference file whose only line has two fields. *)
Lemma corpus_without_triples_as_missing_witness :
  written (main Sample.decimal_float Sample.poly_hash
             (Sample.with_real
                (Some {| real_lines := [Sample.row ["e1"; "r1"]];
                         memory_error := None |}) Sample.env_two))
  = written (main Sample.decimal_float Sample.poly_hash
               (Sample.with_real None
                  (Sample.with_real
                     (Some {| real_lines := [Sample.row ["e1"; "r1"]];
                              memory_error := None |}) Sample.env_two)))
  ∧ novelty_check_active_of Sample.poly_hash
      (Sample.with_real
         (Some {| real_lines := [Sample.row ["e1"; "r1"]];
                  memory_error := None |}) Sample.env_two) = true
  ∧ novelty_check_active_of Sample.poly_hash
      (Sample.with_real None
         (Sample.with_real
            (Some {| real_lines := [Sample.row ["e1"; "r1"]];
                     memory_error := None |}) Sample.env_two)) = false.
Proof.
  apply (corpus_without_triples_as_missing Sample.decimal_float Sample.poly_hash
           (Sample.with_real
              (Some {| real_lines := [Sample.row ["e1"; "r1"]];
                       memory_error := None |}) Sample.env_two)
           {| real_lines := [Sample.row ["e1"; "r1"]]; memory_error := None |}).
  - reflexivity.
  - reflexivity.
  - apply Forall_forall. repeat constructor.
Defined.

(** X8: the load that runs out of memory after the first line of the
    reference file. *)
Lemma memory_error_vocabulary_witness :
  ∃ d, written (main Sample.decimal_float Sample.poly_hash Sample.env_memory_error) = [d]
     ∧ novelty_check_active_of Sample.poly_hash Sample.env_memory_error = false
     ∧ real_triples_set_of Sample.poly_hash Sample.env_memory_error = ∅
     ∧ size (all_relations_of Sample.poly_hash Sample.env_memory_error) = 1
     ∧ within_cent (st_relation_diversity (db_stats d)) (percent_value 2 1).
Proof.
  eexists. split; [reflexivity|].
  destruct (memory_error_vocabulary Sample.decimal_float Sample.poly_hash
              Sample.env_memory_error _ 1 _ eq_refl eq_refl
              (list_elem_of_here _ _))
    as (Ha & Hs & Hr & Hd).
  split_and!; [exact Ha|exact Hs|by rewrite Hr|].
  apply Hd. by vm_compute.
Defined.

(** X5: the two-line batch against its reference file: the hash tells the
    three keys apart, and one triple of two is new. *)
Lemma novelty_counts_absent_triples_witness :
  ∃ d, written (main Sample.decimal_float Sample.poly_hash Sample.env_two) = [d]
     ∧ novel_count Sample.poly_hash (batch Sample.decimal_float Sample.env_two)
         (real_triples_set_of Sample.poly_hash Sample.env_two)
         (novelty_check_active_of Sample.poly_hash Sample.env_two)
       = length (filter (λ x, key_of x ∉ corpus_triples [Sample.row ["e1"; "r1"; "e2"]])
                   (batch Sample.decimal_float Sample.env_two))
     ∧ within_cent (st_novelty (db_stats d))
         (percent_value
            (length (filter (λ x, key_of x ∉ corpus_triples
                                            [Sample.row ["e1"; "r1"; "e2"]])
                       (batch Sample.decimal_float Sample.env_two)))
            (length (batch Sample.decimal_float Sample.env_two))).
Proof.
  eexists. split; [reflexivity|].
  apply (novelty_counts_absent_triples Sample.decimal_float Sample.poly_hash Sample.env_two
           {| real_lines := [Sample.row ["e1"; "r1"; "e2"]]; memory_error := None |}
           _ eq_refl eq_refl).
  - apply collision_free_on_Forall.
    apply (bool_decide_unpack _). vm_compute. exact I.
  - left.
Defined.

(** X14: the batch whose first score is the text nan. *)
Lemma nan_score_nan_average_witness :
  ∃ d, written (main Sample.decimal_float Sample.poly_hash Sample.env_inner_prefix) = [d]
     ∧ st_avg_distance (db_stats d) = NaN.
Proof.
  eexists. split; [reflexivity|].
  apply (nan_score_nan_average Sample.decimal_float Sample.poly_hash
           Sample.env_inner_prefix).
  - left.
  - eexists. split; [left|reflexivity].
Defined.

(** X16: the report of the two-line batch, with its mapping of two
    names. *)
Lemma report_needs_usable_mapping_witness :
  ∃ d idn, written (main Sample.decimal_float Sample.poly_hash Sample.env_two) = [d]
     ∧ id_to_name_of Sample.env_two = Some idn
     ∧ st_total_knowledge_base (db_stats d) = 2
     ∧ st_total_generated (db_stats d) = 2.
Proof.
  eexists.
  destruct (report_needs_usable_mapping Sample.decimal_float Sample.poly_hash
              Sample.env_two _ (list_elem_of_here _ _))
    as (idn & Hid & _ & _ & _ & Ht).
  exists idn. split_and!; [reflexivity|exact Hid|reflexivity|exact Ht].
Defined.
